(** * gravity.js: the jQuery layout plugin, embedded and checked against its specification

    The development follows [src/js/gravity.js].  The two methods that carry
    the algorithm are embedded as executable functions:

    - [buildCache]  (lines 121-148): discovery of parent/children groups;
    - [calcGravity] (lines 149-268): the per-group force, padding, alignment
      and margin computation together with its style writes.

    Numbers.  JavaScript numbers are modelled as exact rationals ([Q]); the
    only non-finite value the code can produce on rendered elements, the [NaN]
    obtained from a property that does not exist, is modelled explicitly
    ([jsnum]).  Rounding of binary floating point is outside the model.

    Document.  The document is a list of nodes in document order.  Node 0 is
    the element the plugin is attached to ([body] in the plugin's own call at
    line 387); every other node is one of its descendants.  Each node carries
    the classes and the [gravity-id] attribute the selectors look at, the
    geometry jQuery reports for it, and the style properties the plugin reads
    and writes.  A jQuery getter reads the first matched node, a jQuery setter
    writes every matched node.

    The browser.  Layout is not modelled: a node's geometry is what
    [outerWidth()], [outerHeight()] and [offset()] report when they are
    called, and the statements below speak of the values a group reads
    before its own first write.  A style is what [css()] reports for the
    element itself; inheritance from an ancestor is not modelled, and the
    statements on text alignment speak of the elements a text-align is
    written on.  A padding that is negative is dropped, as browsers do.  A
    margin is read through [parseInt] from the text [css()] returns; the
    statements on the margins read are made for the lengths which that text
    gives in full and in decimal notation ([plain_px]). *)

From Stdlib Require Import QArith Qround Lqa ZArith Lia.
From stdpp Require Import base list strings pretty.

Local Open Scope string_scope.
Local Open Scope list_scope.
Local Open Scope Q_scope.

(** ** Numbers *)

(** [a < b], [a <= b] on JavaScript numbers that are finite. *)
Definition Qleb (a b : Q) : bool := Qle_bool a b.
Definition Qltb (a b : Q) : bool := negb (Qle_bool b a).

(** [parseInt] applied to the text [css()] returns for a pixel length, when
    that text is the decimal notation of the length, such as ["12.5px"] or
    ["-3px"]: the leading integer, that is the length truncated toward
    zero. *)
Definition parseInt_px (q : Q) : Q :=
  inject_Z (Z.quot (Qnum q) (Zpos (Qden q))).

(** The lengths for which that is what [css()] returns: those written with
    at most six significant digits, at most four of them decimals
    ([z / 10^e] with [|z| < 10^6] and [e <= 4]).  For other lengths the text
    depends on the browser: it may be rounded (["123457px"] for 123456.7) or
    in exponent notation (["1e-7px"], ["1.10838e+06px"]), and [parseInt]
    reads the digits before the first character that is not a digit (1 in
    both examples).  Statements about the margins read are made for the
    lengths below. *)
Definition plain_px (q : Q) : Prop :=
  exists (z : Z) (e : nat),
    (e <= 4)%nat /\ (Z.abs z < 1000000)%Z /\
    q * inject_Z (10 ^ Z.of_nat e) == inject_Z z.

(** A JavaScript value as far as arithmetic sees it. *)
Inductive jsval : Type :=
  | JUndefined
  | JNumber (q : Q)
  | JString (s : string)
  | JObject.

(** The result of a numeric operation. *)
Inductive jsnum : Type :=
  | Num (q : Q)
  | NaN.

(** [ToNumber]: [undefined] becomes [NaN]; the only strings and objects met
    here are selectors and records, which are not numeric. *)
Definition to_number (v : jsval) : jsnum :=
  match v with
  | JNumber q => Num q
  | JUndefined | JString _ | JObject => NaN
  end.

Definition js_add (a b : jsnum) : jsnum :=
  match a, b with
  | Num x, Num y => Num (x + y)
  | _, _ => NaN
  end.

Definition js_sub (a b : jsnum) : jsnum :=
  match a, b with
  | Num x, Num y => Num (x - y)
  | _, _ => NaN
  end.

Definition js_mul (a b : jsnum) : jsnum :=
  match a, b with
  | Num x, Num y => Num (x * y)
  | _, _ => NaN
  end.

Definition js_div (a b : jsnum) : jsnum :=
  match a, b with
  | Num x, Num y => Num (x / y)
  | _, _ => NaN
  end.

(** [a > b]: every comparison with [NaN] is false. *)
Definition js_gt (a b : jsnum) : bool :=
  match a, b with
  | Num x, Num y => Qltb y x
  | _, _ => false
  end.

(** ** The document *)

(** What [outerWidth()], [outerHeight()] and [offset()] report. *)
Record box : Type := mkBox {
  outer_width : Q;
  outer_height : Q;
  offset_top : Q;
  offset_left : Q
}.

(** The style properties the plugin reads or writes, lengths in pixels. *)
Record style : Type := mkStyle {
  margin_top : Q;
  margin_right : Q;
  margin_bottom : Q;
  margin_left : Q;
  padding_top : Q;
  text_align : string
}.

Record node : Type := mkNode {
  parent_of : nat;                 (* index of the parent node *)
  cls_gravity : bool;              (* class "gravity" *)
  cls_gravity_parent : bool;       (* class "gravity-parent" *)
  cls_gravity_init : bool;         (* class "gravity-init" *)
  cls_gravitation_node : bool;     (* class "gravitation-node" *)
  gravity_id : option string;      (* attribute "gravity-id" *)
  geometry : box;
  css : style
}.

Abbreviation dom := (list node).

(** The three selector shapes the plugin builds. *)
Inductive selector : Type :=
  | SelParent (v : string)     (* '.gravity-parent[gravity-id=' + v + ']' *)
  | SelChild (v : string)      (* '.gravity[gravity-id=' + v + ']' *)
  | SelGravitationNode.        (* '.gravity-init .gravitation-node' *)

Definition selector_text (s : selector) : string :=
  match s with
  | SelParent v => ".gravity-parent[gravity-id=" +:+ v +:+ "]"
  | SelChild v => ".gravity[gravity-id=" +:+ v +:+ "]"
  | SelGravitationNode => ".gravity-init .gravitation-node"
  end.

Definition has_id (v : string) (n : node) : bool :=
  match gravity_id n with
  | Some w => String.eqb w v
  | None => false
  end.

Definition root_init (d : dom) : bool :=
  match d with
  | r :: _ => cls_gravity_init r
  | [] => false
  end.

(** Does node [n], at position [i] of document [d], match the selector? *)
Definition matches (d : dom) (s : selector) (i : nat) (n : node) : bool :=
  match s with
  | SelParent v => cls_gravity_parent n && has_id v n
  | SelChild v => cls_gravity n && has_id v n
  | SelGravitationNode =>
      cls_gravitation_node n && negb (Nat.eqb i 0) && root_init d
  end.

(** [$(s)[0]] scanning the nodes from position [i] on. *)
Fixpoint first_from (d : dom) (s : selector) (i : nat) (l : list node)
  : option node :=
  match l with
  | [] => None
  | n :: l' => if matches d s i n then Some n else first_from d s (S i) l'
  end.

Definition first_match (s : selector) (d : dom) : option node :=
  first_from d s 0 d.

(** A setter applied to every matched node. *)
Fixpoint update_from (d : dom) (s : selector) (f : node -> node) (i : nat)
  (l : list node) : list node :=
  match l with
  | [] => []
  | n :: l' =>
      (if matches d s i n then f n else n) :: update_from d s f (S i) l'
  end.

Definition update_all (s : selector) (f : node -> node) (d : dom) : dom :=
  update_from d s f 0 d.

Definition with_css (f : style -> style) (n : node) : node :=
  mkNode (parent_of n) (cls_gravity n) (cls_gravity_parent n)
    (cls_gravity_init n) (cls_gravitation_node n) (gravity_id n)
    (geometry n) (f (css n)).

(** ['padding-top': v] with a number [v]: jQuery appends 'px'.  A negative
    padding is not a valid declaration and the browser drops it, so that the
    element keeps the padding it had. *)
Definition set_padding_top (v : Q) (s : style) : style :=
  if Qltb v 0 then s
  else mkStyle (margin_top s) (margin_right s) (margin_bottom s)
         (margin_left s) v (text_align s).

Definition set_text_align (v : string) (s : style) : style :=
  mkStyle (margin_top s) (margin_right s) (margin_bottom s) (margin_left s)
    (padding_top s) v.

Definition set_margins (t r b l : Q) (s : style) : style :=
  mkStyle t r b l (padding_top s) (text_align s).

Definition set_margin_top_bottom (v : Q) (s : style) : style :=
  mkStyle v (margin_right s) v (margin_left s) (padding_top s) (text_align s).

(** ** Computations that read and write the document and may throw *)

Inductive outcome (A : Type) : Type :=
  | Ok (a : A)
  | TypeError.
Arguments Ok {A} a.
Arguments TypeError {A}.

(** The document is mutated in place: what was written before an exception
    stays written, so the document is returned on both outcomes.  The data a
    pass stores on the group and child records ([group.data], [child.data])
    are returned when the pass completes; what an interrupted pass has stored
    is not tracked, as the next pass overwrites it before reading it. *)
Definition M (A : Type) : Type := dom -> outcome A * dom.

Definition ret {A} (a : A) : M A := fun d => (Ok a, d).

Definition bind {A B} (m : M A) (k : A -> M B) : M B :=
  fun d =>
    match m d with
    | (Ok a, d') => k a d'
    | (TypeError, d') => (TypeError, d')
    end.

Definition throw {A} : M A := fun d => (TypeError, d).

Notation "'let*' x ':=' m 'in' k" := (bind m (fun x => k))
  (at level 10, x pattern, m at level 100, k at level 200).

(** ** The plugin's data *)

(** [options.k] and [options.density] (defaults 0.618 and 10, lines 380-381).
    A zero [density] makes every margin infinite or [NaN] in the source and is
    outside the model. *)
Record config : Type := mkConfig {
  k : Q;
  density : Q
}.

Definition defaults : config := mkConfig (618 # 1000) 10.

(** [child.data], as filled by lines 171-185. *)
Record child_data : Type := mkChildData {
  c_width : Q;
  c_height : Q;
  c_force : Q;
  c_center_top : Q;
  c_center_left : Q;
  c_margin_top : Q;
  c_margin_right : Q;
  c_margin_bottom : Q;
  c_margin_left : Q
}.

(** An entry of [group.children]: created as [{ id: ... }] at line 145, given
    its [data] property at line 171.  It has no other property. *)
Record child : Type := mkChild {
  child_id : selector;
  child_data_of : option child_data
}.

(** [group.data], as filled by lines 154-218. *)
Record group_data : Type := mkGroupData {
  aWidth : Q;
  aHeight : Q;
  gWidth : Q;
  gHeight : Q;
  g_offset_top : Q;
  g_offset_left : Q;
  gravity_top : Q;
  gravity_left : Q;
  g_center_top : Q;
  g_center_left : Q;
  g_padding_top : Q
}.

(** An entry of [options.elements] (lines 139-142). *)
Record group : Type := mkGroup {
  group_parent : selector;
  group_children : list child;
  group_data_of : option group_data
}.

(** Reading a property of a child object by name. *)
Definition child_prop (c : child) (p : string) : jsval :=
  if String.eqb p "id" then JString (selector_text (child_id c))
  else if String.eqb p "data" then
    match child_data_of c with
    | Some _ => JObject
    | None => JUndefined
    end
  else JUndefined.

(** ** buildCache (lines 121-148) *)

Definition add_gravity_init (n : node) : node :=
  mkNode (parent_of n) (cls_gravity n) (cls_gravity_parent n) true
    (cls_gravitation_node n) (gravity_id n) (geometry n) (css n).

Definition add_gravity_parent (n : node) : node :=
  mkNode (parent_of n) (cls_gravity n) true (cls_gravity_init n)
    (cls_gravitation_node n) (gravity_id n) (geometry n) (css n).

Definition set_gravity_id (v : string) (n : node) : node :=
  mkNode (parent_of n) (cls_gravity n) (cls_gravity_parent n)
    (cls_gravity_init n) (cls_gravitation_node n) (Some v) (geometry n)
    (css n).

(** [this.$element.find('.gravity')]: the descendants of node 0 that carry the
    class, in document order, each paired with its [.parent()].  Positions and
    parents do not change while the loop runs. *)
Fixpoint find_from (i : nat) (l : list node) : list (nat * nat) :=
  match l with
  | [] => []
  | n :: l' =>
      if cls_gravity n then (i, parent_of n) :: find_from (S i) l'
      else find_from (S i) l'
  end.

Definition find_gravity (d : dom) : list (nat * nat) :=
  match d with
  | [] => []
  | _ :: l => find_from 1 l
  end.

(** The attribute as [parent.attr('gravity-id')] reads it. *)
Definition attr_gravity_id (d : dom) (i : nat) : option string :=
  match d !! i with
  | Some n => gravity_id n
  | None => None
  end.

Definition push_child (c : child) (g : group) : group :=
  mkGroup (group_parent g) (group_children g ++ [c]) (group_data_of g).

(** The state the loop works on: the document, [options.elements] and the
    local variable [parents]. *)
Record cache : Type := mkCache {
  doc : dom;
  elements : list group;
  parents : nat
}.

(** One call of the callback of line 133, on the [index]-th matched element
    [e] whose parent is node [p]. *)
Definition buildCache_each (index : nat) (e p : nat) (st : cache)
  : outcome cache :=
  let d1 := alter add_gravity_parent p (doc st) in
  let d2 := alter (set_gravity_id (pretty index)) e d1 in
  let st3 :=
    match attr_gravity_id d2 p with
    | None =>
        mkCache
          (alter (set_gravity_id (pretty (parents st))) p d2)
          (elements st ++
             [mkGroup (SelParent (pretty (parents st))) [] None])
          (if (0 <? parents st)%nat then (parents st + 1)%nat
           else parents st)
    | Some _ => mkCache d2 (elements st) (parents st)
    end in
  match elements st3 !! parents st3 with
  | None => TypeError          (* options.elements[parents] is undefined *)
  | Some g =>
      Ok (mkCache (doc st3)
            (<[parents st3 :=
                 push_child (mkChild (SelChild (pretty index)) None) g]>
               (elements st3))
            (parents st3))
  end.

Fixpoint buildCache_loop (index : nat) (found : list (nat * nat))
  (st : cache) : outcome cache :=
  match found with
  | [] => Ok st
  | (e, p) :: rest =>
      match buildCache_each index e p st with
      | Ok st' => buildCache_loop (S index) rest st'
      | TypeError => TypeError
      end
  end.

(** [buildCache] run on document [d] with [options.elements] holding [els]. *)
Definition buildCache (d : dom) (els : list group) : outcome cache :=
  let d0 := alter add_gravity_init 0%nat d in
  buildCache_loop 0 (find_gravity d0) (mkCache d0 els 0).

(** ** calcGravity (lines 149-268) *)

(** [$(s)[0]], whose absence makes [$(s).offset().top] raise a TypeError.
    Lines 155-161 and 172-178 read [outerWidth()], [outerHeight()] and
    [offset()] of one selector in a row, so an empty match raises before any
    of the values read is stored. *)
Definition first_node (s : selector) : M node :=
  fun d =>
    match first_match s d with
    | Some n => (Ok n, d)
    | None => (TypeError, d)
    end.

(** [$(s).outerHeight()] on its own: [undefined] for an empty match. *)
Definition outerHeight (s : selector) : M jsval :=
  fun d =>
    (Ok match first_match s d with
        | Some n => JNumber (outer_height (geometry n))
        | None => JUndefined
        end, d).

(** [$(s).css('text-align')]. *)
Definition css_text_align (s : selector) : M (option string) :=
  fun d =>
    (Ok match first_match s d with
        | Some n => Some (text_align (css n))
        | None => None
        end, d).

(** [$(s).css({...})]. *)
Definition css_set (s : selector) (f : style -> style) : M unit :=
  fun d => (Ok tt, update_all s (with_css f) d).

(** [$(s).css({'margin-top': v+'px', 'margin-bottom': v+'px'})]; ['NaNpx'] is
    not a length and the declaration is dropped. *)
Definition css_set_margin_top_bottom (s : selector) (v : jsnum) : M unit :=
  match v with
  | Num q => css_set s (set_margin_top_bottom q)
  | NaN => ret tt
  end.

(** Lines 171-185. *)
Definition measure_child (o : config) (c : child) : M child_data :=
  let* n := first_node (child_id c) in
  let width := outer_width (geometry n) in
  let height := outer_height (geometry n) in
  let force := height * k o in
  ret (mkChildData width height force
         (offset_top (geometry n) + height / 2)
         (offset_left (geometry n) + width / 2)
         (parseInt_px (margin_top (css n)) / density o * force)
         (parseInt_px (margin_right (css n)) / density o * force)
         (parseInt_px (margin_bottom (css n)) / density o * force)
         (parseInt_px (margin_left (css n)) / density o * force)).

(** The loop of lines 169-188, with the running [gWidth] and [gHeight]. *)
Fixpoint measure_children (o : config) (cs : list child) (gw gh : Q)
  : M (list child * Q * Q) :=
  match cs with
  | [] => ret ([], gw, gh)
  | c :: cs' =>
      let* cd := measure_child o c in
      let gw' := gw + (c_margin_left cd + c_width cd + c_margin_right cd) in
      let gh' := gh + (c_margin_top cd + c_height cd + c_margin_bottom cd) in
      let* (r, gw'', gh'') := measure_children o cs' gw' gh' in
      ret (mkChild (child_id c) (Some cd) :: r, gw'', gh'')
  end.

(** Lines 205-218. *)
Definition calc_padding_top (gh ah delta_top off_top : Q) : Q :=
  if Qleb ah gh then 0
  else if Qleb gh (ah - delta_top) then delta_top - off_top
  else ah - gh.

(** Lines 229-238, for a child whose text-align reads 'start'. *)
Definition calc_text_align (center_left grav_left : Q) : string :=
  if Qltb center_left (grav_left / 2) then "left"
  else if Qltb grav_left (center_left * 3 / 2) then "center"
  else "right".

(** The callback of line 226. *)
Definition apply_child (o : config) (gd : group_data) (c : child) : M unit :=
  let* h := outerHeight (child_id c) in
  let m := js_mul (to_number h) (Num (k o)) in
  let* ta := css_text_align (child_id c) in
  let* cd :=
    match child_data_of c with
    | Some cd => ret cd
    | None => throw          (* child.data is undefined *)
    end in
  let* _ :=
    match ta with
    | Some t =>
        if String.eqb t "start"
        then css_set (child_id c)
               (set_text_align
                  (calc_text_align (c_center_left cd) (gravity_left gd)))
        else ret tt
    | None => ret tt
    end in
  let* _ :=
    css_set (child_id c)
      (set_margins (c_margin_top cd) (c_margin_right cd)
         (c_margin_bottom cd) (c_margin_left cd)) in
  let child_height := to_number (child_prop c "height") in
  if js_gt (js_add child_height (js_mul m (Num 2))) (Num (aHeight gd))
  then
    let margin :=
      js_div (js_sub (Num (aHeight gd)) child_height) (Num 2) in
    css_set_margin_top_bottom (child_id c) margin
  else ret tt.

Fixpoint apply_children (o : config) (gd : group_data) (cs : list child)
  : M unit :=
  match cs with
  | [] => ret tt
  | c :: cs' => let* _ := apply_child o gd c in apply_children o gd cs'
  end.

(** Lines 154-218: everything computed for a group before the first write. *)
Definition measure_group (o : config) (g : group)
  : M (list child * group_data) :=
  let* pn := first_node (group_parent g) in
  let* gn := first_node SelGravitationNode in
  let* (cs, gw, gh) := measure_children o (group_children g) 0 0 in
  let ah := outer_height (geometry pn) in
  let off_top := offset_top (geometry pn) in
  let off_left := offset_left (geometry pn) in
  let ctop := off_top + gh / 2 in
  let cleft := off_left + gw / 2 in
  let delta_top := offset_top (geometry gn) - ctop in
  ret (cs,
       mkGroupData (outer_width (geometry pn)) ah gw gh off_top off_left
         (offset_top (geometry gn)) (offset_left (geometry gn)) ctop cleft
         (calc_padding_top gh ah delta_top off_top)).

(** The callback of line 153. *)
Definition calcGroup (o : config) (g : group) : M group :=
  let* (cs, gd) := measure_group o g in
  let* _ := css_set (group_parent g) (set_padding_top (g_padding_top gd)) in
  let* _ := apply_children o gd cs in
  ret (mkGroup (group_parent g) cs (Some gd)).

Fixpoint calcGravity (o : config) (els : list group) : M (list group) :=
  match els with
  | [] => ret []
  | g :: rest =>
      let* g' := calcGroup o g in
      let* rest' := calcGravity o rest in
      ret (g' :: rest')
  end.

(** ** Predicates used in the statements *)

(** Everything selectors and measurements look at. *)
Definition same_tags (n n' : node) : Prop :=
  parent_of n' = parent_of n /\
  cls_gravity n' = cls_gravity n /\
  cls_gravity_parent n' = cls_gravity_parent n /\
  cls_gravity_init n' = cls_gravity_init n /\
  cls_gravitation_node n' = cls_gravitation_node n /\
  gravity_id n' = gravity_id n /\
  geometry n' = geometry n.

(** Two documents related node by node. *)
Definition related (R : node -> node -> Prop) (d d' : dom) : Prop :=
  Forall2 R d d'.

(** Computations all of whose writes respect [R]. *)
Definition preserves (R : node -> node -> Prop) {A} (m : M A) : Prop :=
  forall d r d', m d = (r, d') -> related R d d'.

(** A group one of whose measurements has nothing to measure: its parent, the
    gravitation node or one of its children is not in the document. *)
Definition unresolved (g : group) (d : dom) : Prop :=
  first_match (group_parent g) d = None \/
  first_match SelGravitationNode d = None \/
  Exists (fun c => first_match (child_id c) d = None) (group_children g).

(** A node whose text alignment is either kept or has become an explicit
    one. *)
Definition ta_step (n n' : node) : Prop :=
  same_tags n n' /\
  (text_align (css n') = text_align (css n) \/
   text_align (css n') <> "start").

(** A node whose text alignment is kept. *)
Definition ta_keep (n n' : node) : Prop :=
  same_tags n n' /\ text_align (css n') = text_align (css n).

(** The element a selector resolves to no longer reads 'start'. *)
Definition settled (s : selector) (d : dom) : Prop :=
  forall n, first_match s d = Some n -> text_align (css n) <> "start".

(** The document after the alignment step of lines 230-238. *)
Definition aligned (gd : group_data) (c : child) (cd : child_data) (d : dom)
  : dom :=
  match first_match (child_id c) d with
  | Some n =>
      if String.eqb (text_align (css n)) "start"
      then update_all (child_id c)
             (with_css (set_text_align
                (calc_text_align (c_center_left cd) (gravity_left gd)))) d
      else d
  | None => d
  end.

(** Lines 83-85 on a document to which [setGravitation] has already appended
    the gravitation nodes: [buildCache], then [calcGravity].  (The tags
    [buildCache] has set when it raises are not tracked.) *)
Definition init (o : config) (d : dom) : outcome (list group) * dom :=
  match buildCache d [] with
  | Ok st => calcGravity o (elements st) (doc st)
  | TypeError => (TypeError, d)
  end.

Definition style_at (d : dom) (i : nat) : option style := css <$> d !! i.

Definition text_align_at (d : dom) (i : nat) : option string :=
  text_align <$> style_at d i.

(** A node's padding is kept. *)
Definition pad_keep (n n' : node) : Prop :=
  same_tags n n' /\ padding_top (css n') = padding_top (css n).

(** ** Sample documents *)

Definition plain_style (m : Q) (ta : string) : style := mkStyle m m m m 0 ta.

Definition container (par : nat) (b : box) : node :=
  mkNode par false false false false None b (plain_style 0 "start").

Definition gravity_child (par : nat) (b : box) (s : style) : node :=
  mkNode par true false false false None b s.

Definition gravitation_node (b : box) : node :=
  mkNode 0 false false false true (Some "g1") b (plain_style 0 "start").

Definition body : node := container 0 (mkBox 800 600 0 0).

(** One container 150px high holding one child 100px high whose margins are
    all 20px. *)
Definition doc_overflow : dom :=
  [ body;
    container 0 (mkBox 400 150 10 0);
    gravity_child 1 (mkBox 50 100 10 15) (plain_style 20 "start");
    gravitation_node (mkBox 0 0 300 100) ].

(** Three children whose horizontal centers are 40, 60 and 80, attractor at
    horizontal offset 100. *)
Definition doc_align : dom :=
  [ body;
    container 0 (mkBox 400 300 10 0);
    gravity_child 1 (mkBox 20 10 10 30) (plain_style 0 "start");
    gravity_child 1 (mkBox 20 10 20 50) (plain_style 0 "start");
    gravity_child 1 (mkBox 20 10 30 70) (plain_style 0 "start");
    gravitation_node (mkBox 0 0 300 100) ].

(** A container 100px high whose only child is 200px high. *)
Definition doc_tall : dom :=
  [ body;
    container 0 (mkBox 400 100 10 0);
    gravity_child 1 (mkBox 50 200 10 15) (plain_style 0 "start");
    gravitation_node (mkBox 0 0 300 100) ].

(** Two containers, the first with one flagged child, the second with two. *)
Definition doc_two_parents : dom :=
  [ body;
    container 0 (mkBox 400 150 10 0);
    gravity_child 1 (mkBox 50 100 10 15) (plain_style 20 "start");
    container 0 (mkBox 400 150 200 0);
    gravity_child 3 (mkBox 50 100 200 35) (plain_style 20 "start");
    gravity_child 3 (mkBox 50 100 200 55) (plain_style 20 "left");
    gravitation_node (mkBox 0 0 300 100) ].

(** A child whose top margin is 12.5px. *)
Definition doc_fraction : dom :=
  [ body;
    mkNode 0 false true false false (Some "0") (mkBox 400 150 10 0)
      (plain_style 0 "start");
    mkNode 1 true false false false (Some "0") (mkBox 50 100 10 15)
      (mkStyle (25 # 2) 20 20 20 0 "start");
    gravitation_node (mkBox 0 0 300 100) ].

(** A tagged document holding the first and the third of three groups; the
    elements of the second group are no longer in the document. *)
Definition tagged_parent (v : string) (b : box) : node :=
  mkNode 0 false true false false (Some v) b (plain_style 0 "start").

Definition tagged_child (par : nat) (v : string) (b : box) : node :=
  mkNode par true false false false (Some v) b (plain_style 20 "start").

Definition doc_three : dom :=
  [ mkNode 0 false false true false None (mkBox 800 600 0 0)
      (plain_style 0 "start");
    tagged_parent "0" (mkBox 400 150 10 0);
    tagged_child 1 "0" (mkBox 50 100 10 15);
    tagged_parent "2" (mkBox 400 150 400 0);
    tagged_child 3 "2" (mkBox 50 100 400 15);
    gravitation_node (mkBox 0 0 300 100) ].

Definition group_of (p c : string) : group :=
  mkGroup (SelParent p) [mkChild (SelChild c) None] None.

Definition elements_three : list group :=
  [ group_of "0" "0"; group_of "1" "1"; group_of "2" "2" ].

(** ** Shapes used to describe what [buildCache] leaves in [options.elements] *)

(** The child reference pushed at line 145 for the [index]-th element. *)
Definition child_ref (index : nat) : child :=
  mkChild (SelChild (pretty index)) None.

(** The group record pushed at lines 139-142 while [parents] is 0. *)
Definition group_zero : group := mkGroup (SelParent "0") [] None.

(** Children appended to the first group of a list. *)
Definition add_children (cs : list child) (els : list group) : list group :=
  match els with
  | [] => []
  | g :: r =>
      mkGroup (group_parent g) (group_children g ++ cs) (group_data_of g) :: r
  end.

(** The data measured for the first child of [doc_three], and a group whose
    attractor is at horizontal offset 100. *)
Definition sample_child_data : child_data :=
  mkChildData 50 100 (618 # 10) 60 40 (1236 # 10) (1236 # 10) (1236 # 10)
    (1236 # 10).

Definition sample_child : child :=
  mkChild (SelChild "0") (Some sample_child_data).

Definition sample_group_data : group_data :=
  mkGroupData 400 150 0 0 10 0 300 100 10 0 0.

(** ** Predicates for the further properties *)

(** Every measurement of the group has something to measure. *)
Definition resolved (g : group) (d : dom) : Prop :=
  is_Some (first_match (group_parent g) d) /\
  is_Some (first_match SelGravitationNode d) /\
  Forall (fun c => is_Some (first_match (child_id c) d)) (group_children g).

(** What a measured child adds to [gHeight] and to [gWidth] (lines 186-187). *)
Definition child_extent_v (c : child) : Q :=
  match child_data_of c with
  | Some cd => c_margin_top cd + c_height cd + c_margin_bottom cd
  | None => 0
  end.

Definition child_extent_h (c : child) : Q :=
  match child_data_of c with
  | Some cd => c_margin_left cd + c_width cd + c_margin_right cd
  | None => 0
  end.

Definition sum_extents (f : child -> Q) (cs : list child) : Q :=
  foldr (fun c acc => f c + acc) 0 cs.

(** A group or a child after the pass: same selector, data filled in. *)
Definition child_measured (c c' : child) : Prop :=
  child_id c' = child_id c /\ is_Some (child_data_of c').

Definition group_measured (g g' : group) : Prop :=
  group_parent g' = group_parent g /\
  is_Some (group_data_of g') /\
  Forall2 child_measured (group_children g) (group_children g').

(** A node whose text alignment is kept or is one the pass writes. *)
Definition ta_written (n n' : node) : Prop :=
  same_tags n n' /\
  (text_align (css n') = text_align (css n) \/
   text_align (css n') = "left" \/
   text_align (css n') = "center" \/
   text_align (css n') = "right").

(** A node after some calls of the callback of [buildCache]: its style, its
    geometry and its place in the tree are kept; classes and a gravity-id
    may have been added. *)
Definition tags_grow (n n' : node) : Prop :=
  parent_of n' = parent_of n /\
  cls_gravity n' = cls_gravity n /\
  cls_gravitation_node n' = cls_gravitation_node n /\
  geometry n' = geometry n /\
  css n' = css n /\
  (cls_gravity_parent n = true -> cls_gravity_parent n' = true) /\
  (cls_gravity_init n = true -> cls_gravity_init n' = true) /\
  (is_Some (gravity_id n) -> is_Some (gravity_id n')).

(** A container with one flagged child and no gravitation node, as left by
    [setGravitation] when [options.gravitation] is empty. *)
Definition doc_no_attractor : dom :=
  [ body;
    container 0 (mkBox 400 150 10 0);
    gravity_child 1 (mkBox 50 100 10 15) (plain_style 20 "start") ].

(** Two group records with the same selectors, whatever their data. *)
Definition same_selectors (g1 g2 : group) : Prop :=
  group_parent g1 = group_parent g2 /\
  child_id <$> group_children g1 = child_id <$> group_children g2.

(** [elements_three] after a pass has filled in some of its data. *)
Definition elements_three_measured : list group :=
  [ mkGroup (SelParent "0") [sample_child] (Some sample_group_data);
    group_of "1" "1";
    mkGroup (SelParent "2") [mkChild (SelChild "2") (Some sample_child_data)]
      None ].

(** The two cases of a padding write: dropped or stored. *)
Ltac padding_cases :=
  try (progress unfold set_padding_top; simpl; destruct (Qltb _ 0); simpl).

(** One goal per side of a four-element list. *)
Ltac four_sides :=
  constructor; [|constructor; [|constructor; [|constructor; [|constructor]]]].

(** A child record as the loop of lines 169-188 leaves it, against the
    element its selector resolves to in document [d]: same selector, and the
    sizes and the center stored are those of that element. *)
Definition child_measured_on (d : dom) (c c' : child) : Prop :=
  child_id c' = child_id c /\
  exists n cd,
    first_match (child_id c) d = Some n /\
    child_data_of c' = Some cd /\
    c_width cd = outer_width (geometry n) /\
    c_height cd = outer_height (geometry n) /\
    c_center_top cd
      = offset_top (geometry n) + outer_height (geometry n) / 2 /\
    c_center_left cd
      = offset_left (geometry n) + outer_width (geometry n) / 2.

(** A tagged container of height [ah] at vertical offset [top] holding three
    children 10px high without margins, and an attractor at vertical offset
    [gtop]. *)
Definition doc_column (ah top gtop : Q) : dom :=
  [ mkNode 0 false false true false None (mkBox 800 900 0 0)
      (plain_style 0 "start");
    tagged_parent "0" (mkBox 400 ah top 0);
    mkNode 1 true false false false (Some "0") (mkBox 20 10 top 30)
      (plain_style 0 "start");
    mkNode 1 true false false false (Some "1") (mkBox 20 10 (top + 10) 50)
      (plain_style 0 "start");
    mkNode 1 true false false false (Some "2") (mkBox 20 10 (top + 20) 70)
      (plain_style 0 "right");
    gravitation_node (mkBox 0 0 gtop 100) ].

Definition group_column : group :=
  mkGroup (SelParent "0")
    [mkChild (SelChild "0") None; mkChild (SelChild "1") None;
     mkChild (SelChild "2") None] None.

(** Everything a selector looks at: the classes, the gravity-id and the place
    in the tree. *)
Definition same_marks (n n' : node) : Prop :=
  parent_of n' = parent_of n /\
  cls_gravity n' = cls_gravity n /\
  cls_gravity_parent n' = cls_gravity_parent n /\
  cls_gravity_init n' = cls_gravity_init n /\
  cls_gravitation_node n' = cls_gravitation_node n /\
  gravity_id n' = gravity_id n.

(** A container holding two flagged elements, the second of which holds a
    flagged element itself. *)
Definition doc_nested : dom :=
  [ body;
    container 0 (mkBox 400 300 10 0);
    gravity_child 1 (mkBox 50 100 10 15) (plain_style 20 "start");
    gravity_child 1 (mkBox 200 100 110 15) (plain_style 20 "start");
    gravity_child 3 (mkBox 50 50 110 15) (plain_style 0 "start");
    gravitation_node (mkBox 0 0 300 100) ].

(** * Properties *)

(** ** Comparisons *)

Lemma Qleb_le (a b : Q) : Qleb a b = true <-> a <= b.
Proof. unfold Qleb. apply Qle_bool_iff. Qed.

Lemma Qleb_gt (a b : Q) : Qleb a b = false <-> b < a.
Proof.
  unfold Qleb. split; intros H.
  - apply Qnot_le_lt. intros Hle. apply Qle_bool_iff in Hle. congruence.
  - destruct (Qle_bool a b) eqn:E; [|reflexivity].
    apply Qle_bool_iff in E. exfalso. apply (Qlt_not_le _ _ H E).
Qed.

Lemma Qltb_lt (a b : Q) : Qltb a b = true <-> a < b.
Proof.
  unfold Qltb. rewrite negb_true_iff. apply Qleb_gt.
Qed.

Lemma Qltb_ge (a b : Q) : Qltb a b = false <-> b <= a.
Proof.
  unfold Qltb. rewrite negb_false_iff. apply Qleb_le.
Qed.

(** ** The overflow guard of line 250 *)

(** A child object has the properties [id] and [data] only. *)
Lemma child_height_undefined (c : child) :
  child_prop c "height" = JUndefined.
Proof. reflexivity. Qed.

(** [child.height + m*2 > aHeight] is a comparison with [NaN]. *)
Lemma overflow_guard_false (c : child) (m ah : jsnum) :
  js_gt (js_add (to_number (child_prop c "height")) (js_mul m (Num 2))) ah
  = false.
Proof. reflexivity. Qed.

(** ** Style writes leave the structure of the document alone *)

Lemma same_tags_refl n : same_tags n n.
Proof. repeat split. Qed.

Lemma same_tags_trans n1 n2 n3 :
  same_tags n1 n2 -> same_tags n2 n3 -> same_tags n1 n3.
Proof.
  unfold same_tags. intros (?&?&?&?&?&?&?) (?&?&?&?&?&?&?).
  repeat split; congruence.
Qed.

Lemma same_tags_with_css f n : same_tags n (with_css f n).
Proof. repeat split. Qed.

Section Preservation.

(** A relation between a node before and after some writes that keeps the
    node's tags. *)
Variable R : node -> node -> Prop.
Hypothesis R_refl : forall n, R n n.
Hypothesis R_trans : forall n1 n2 n3, R n1 n2 -> R n2 n3 -> R n1 n3.
Hypothesis R_tags : forall n n', R n n' -> same_tags n n'.

Lemma related_refl d : related R d d.
Proof. unfold related. induction d; constructor; auto. Qed.

Lemma related_trans d1 d2 d3 :
  related R d1 d2 -> related R d2 d3 -> related R d1 d3.
Proof.
  unfold related. intros H12. revert d3.
  induction H12 as [|n1 n2 l1 l2 Hn _ IH]; intros d3 H23;
    inversion H23; subst; constructor.
  - eapply R_trans; eassumption.
  - apply IH. assumption.
Qed.

Lemma related_root_init d d' : related R d d' -> root_init d' = root_init d.
Proof.
  intros [|n n' l l' Hn _]; [reflexivity|].
  simpl. apply R_tags in Hn. apply Hn.
Qed.

Lemma matches_related d d' s i n n' :
  root_init d' = root_init d -> R n n' ->
  matches d' s i n' = matches d s i n.
Proof.
  intros Hr Hn. apply R_tags in Hn.
  destruct Hn as (_ & Hg & Hp & _ & Hgn & Hid & _).
  unfold matches, has_id. rewrite Hg, Hp, Hgn, Hid, Hr. reflexivity.
Qed.

Lemma first_from_related d d' s i l l' :
  root_init d' = root_init d -> Forall2 R l l' ->
  option_Forall2 R (first_from d s i l) (first_from d' s i l').
Proof.
  intros Hr H. revert i. induction H as [|n n' l l' Hn _ IH]; intros i.
  - constructor.
  - simpl. rewrite (matches_related d d' s i n n' Hr Hn).
    destruct (matches d s i n); [constructor; exact Hn | apply IH].
Qed.

Lemma first_match_related d d' s :
  related R d d' -> option_Forall2 R (first_match s d) (first_match s d').
Proof.
  intros H. apply first_from_related; [|exact H].
  apply related_root_init, H.
Qed.

Lemma update_from_related d s f i l :
  (forall n, R n (f n)) -> Forall2 R l (update_from d s f i l).
Proof.
  intros Hf. revert i. induction l as [|n l IH]; intros i; simpl.
  - constructor.
  - constructor; [|apply IH]. destruct (matches d s i n); auto.
Qed.

Lemma preserves_ret {A} (a : A) : preserves R (ret a).
Proof. intros d r d' [= _ <-]. apply related_refl. Qed.

Lemma preserves_throw {A} : preserves R (@throw A).
Proof. intros d r d' [= _ <-]. apply related_refl. Qed.

Lemma preserves_bind {A B} (m : M A) (f : A -> M B) :
  preserves R m -> (forall a, preserves R (f a)) -> preserves R (bind m f).
Proof.
  intros Hm Hf d r d'. unfold bind.
  destruct (m d) as [[a|] d1] eqn:E; intros H.
  - eapply related_trans; [eapply Hm, E | eapply Hf, H].
  - injection H as _ <-. eapply Hm, E.
Qed.

Lemma preserves_first_node s : preserves R (first_node s).
Proof.
  intros d r d'. unfold first_node.
  destruct (first_match s d); intros [= _ <-]; apply related_refl.
Qed.

Lemma preserves_outerHeight s : preserves R (outerHeight s).
Proof. intros d r d' [= _ <-]. apply related_refl. Qed.

Lemma preserves_css_text_align s : preserves R (css_text_align s).
Proof. intros d r d' [= _ <-]. apply related_refl. Qed.

Lemma preserves_css_set s f :
  (forall n, R n (with_css f n)) -> preserves R (css_set s f).
Proof.
  intros Hf d r d' [= _ <-]. apply update_from_related, Hf.
Qed.

(** The four kinds of style write the pass performs. *)
Hypothesis R_padding : forall v n, R n (with_css (set_padding_top v) n).
Hypothesis R_margins :
  forall t r b l n, R n (with_css (set_margins t r b l) n).
Hypothesis R_margin_tb :
  forall v n, R n (with_css (set_margin_top_bottom v) n).
Hypothesis R_align :
  forall c g n, R n (with_css (set_text_align (calc_text_align c g)) n).

Lemma preserves_measure_child o c : preserves R (measure_child o c).
Proof.
  apply preserves_bind; [apply preserves_first_node|].
  intros n. apply preserves_ret.
Qed.

Lemma preserves_measure_children o cs gw gh :
  preserves R (measure_children o cs gw gh).
Proof.
  revert gw gh. induction cs as [|c cs IH]; intros gw gh; simpl.
  - apply preserves_ret.
  - apply preserves_bind; [apply preserves_measure_child|].
    intros cd. apply preserves_bind; [apply IH|].
    intros [[r gw''] gh'']. apply preserves_ret.
Qed.

Lemma preserves_measure_group o g : preserves R (measure_group o g).
Proof.
  apply preserves_bind; [apply preserves_first_node|]. intros pn.
  apply preserves_bind; [apply preserves_first_node|]. intros gn.
  apply preserves_bind; [apply preserves_measure_children|].
  intros [[cs gw] gh]. apply preserves_ret.
Qed.

Lemma preserves_apply_child o gd c : preserves R (apply_child o gd c).
Proof.
  apply preserves_bind; [apply preserves_outerHeight|]. intros h.
  apply preserves_bind; [apply preserves_css_text_align|]. intros ta.
  apply preserves_bind.
  { destruct (child_data_of c); [apply preserves_ret|apply preserves_throw]. }
  intros cd. apply preserves_bind.
  { destruct ta as [t|]; [|apply preserves_ret].
    destruct (String.eqb t "start"); [|apply preserves_ret].
    apply preserves_css_set. intros n. apply R_align. }
  intros _. apply preserves_bind.
  { apply preserves_css_set. intros n. apply R_margins. }
  intros _. cbv zeta. rewrite overflow_guard_false. apply preserves_ret.
Qed.

Lemma preserves_apply_children o gd cs : preserves R (apply_children o gd cs).
Proof.
  induction cs as [|c cs IH]; simpl.
  - apply preserves_ret.
  - apply preserves_bind; [apply preserves_apply_child|]. intros _. apply IH.
Qed.

Lemma preserves_calcGroup o g : preserves R (calcGroup o g).
Proof.
  apply preserves_bind; [apply preserves_measure_group|].
  intros [cs gd]. apply preserves_bind.
  { apply preserves_css_set. intros n. apply R_padding. }
  intros _. apply preserves_bind; [apply preserves_apply_children|].
  intros _. apply preserves_ret.
Qed.

Lemma preserves_calcGravity o els : preserves R (calcGravity o els).
Proof.
  induction els as [|g els IH]; simpl.
  - apply preserves_ret.
  - apply preserves_bind; [apply preserves_calcGroup|]. intros g'.
    apply preserves_bind; [apply IH|]. intros r. apply preserves_ret.
Qed.

End Preservation.

(** ** Reads do not write *)

Lemma related_eq d d' : related eq d d' -> d' = d.
Proof. induction 1; congruence. Qed.

Lemma measure_group_reads o g d r d' :
  measure_group o g d = (r, d') -> d' = d.
Proof.
  intros H. apply related_eq.
  eapply (preserves_measure_group eq); eauto. congruence.
Qed.

(** ** Failing measurements *)

Lemma measure_children_unresolved o cs gw gh d :
  Exists (fun c => first_match (child_id c) d = None) cs ->
  measure_children o cs gw gh d = (TypeError, d).
Proof.
  revert gw gh. induction cs as [|c cs IH]; intros gw gh H.
  - inversion H.
  - simpl. unfold bind at 1. unfold measure_child, bind at 1, first_node.
    destruct (first_match (child_id c) d) as [n|] eqn:E; [|reflexivity].
    inversion H as [? ? Hc|? ? Hcs]; subst; [congruence|].
    unfold ret at 1. unfold bind. rewrite (IH _ _ Hcs). reflexivity.
Qed.

Lemma measure_group_unresolved o g d :
  unresolved g d -> measure_group o g d = (TypeError, d).
Proof.
  intros H. unfold measure_group, bind, first_node.
  destruct (first_match (group_parent g) d) as [pn|] eqn:Ep; [|reflexivity].
  destruct (first_match SelGravitationNode d) as [gn|] eqn:Eg; [|reflexivity].
  destruct H as [H|[H|H]]; [congruence|congruence|].
  rewrite (measure_children_unresolved _ _ _ _ _ H). reflexivity.
Qed.

Lemma calcGroup_unresolved o g d :
  unresolved g d -> calcGroup o g d = (TypeError, d).
Proof.
  intros H. unfold calcGroup, bind.
  rewrite (measure_group_unresolved _ _ _ H). reflexivity.
Qed.

Lemma first_match_none_tags s d d' :
  related same_tags d d' -> first_match s d = None -> first_match s d' = None.
Proof.
  intros Hr Hn.
  pose proof (first_match_related same_tags (fun _ _ H => H) d d' s Hr) as H.
  rewrite Hn in H. inversion H. reflexivity.
Qed.

Lemma unresolved_tags g d d' :
  related same_tags d d' -> unresolved g d -> unresolved g d'.
Proof.
  intros Hr [H|[H|H]]; unfold unresolved.
  - left. eapply first_match_none_tags; eauto.
  - right; left. eapply first_match_none_tags; eauto.
  - right; right. eapply Exists_impl; [exact H|].
    intros c Hc. eapply first_match_none_tags; eauto.
Qed.

Lemma calcGravity_tags o els d r d' :
  calcGravity o els d = (r, d') -> related same_tags d d'.
Proof.
  apply (preserves_calcGravity same_tags same_tags_refl same_tags_trans);
    intros; apply same_tags_with_css.
Qed.

(** The groups of a list are processed one after the other, and the first
    exception ends the pass. *)
Lemma calcGravity_app o pre post d :
  calcGravity o (pre ++ post) d =
  match calcGravity o pre d with
  | (Ok pre', d1) =>
      match calcGravity o post d1 with
      | (Ok post', d2) => (Ok (pre' ++ post')%list, d2)
      | (TypeError, d2) => (TypeError, d2)
      end
  | (TypeError, d1) => (TypeError, d1)
  end.
Proof.
  revert d. induction pre as [|g pre IH]; intros d; simpl.
  - unfold ret. destruct (calcGravity o post d) as [[?|] ?]; reflexivity.
  - unfold bind, ret.
    destruct (calcGroup o g d) as [[g'|] d1]; [|reflexivity].
    rewrite IH.
    destruct (calcGravity o pre d1) as [[pre'|] d2]; [|reflexivity].
    destruct (calcGravity o post d2) as [[post'|] d3]; reflexivity.
Qed.

(** ** Text alignment across passes *)

Lemma calc_text_align_explicit c g : calc_text_align c g <> "start".
Proof.
  unfold calc_text_align.
  destruct (Qltb c (g / 2)); [discriminate|].
  destruct (Qltb g (c * 3 / 2)); discriminate.
Qed.

Lemma ta_step_refl n : ta_step n n.
Proof. split; [apply same_tags_refl | left; reflexivity]. Qed.

Lemma ta_step_trans n1 n2 n3 : ta_step n1 n2 -> ta_step n2 n3 -> ta_step n1 n3.
Proof.
  intros [T12 H12] [T23 H23]. split; [eapply same_tags_trans; eauto|].
  destruct H23 as [E|N]; [|right; exact N].
  rewrite E. exact H12.
Qed.

Lemma ta_step_tags n n' : ta_step n n' -> same_tags n n'.
Proof. intros [H _]. exact H. Qed.

Lemma ta_keep_refl n : ta_keep n n.
Proof. split; [apply same_tags_refl | reflexivity]. Qed.

Lemma ta_keep_trans n1 n2 n3 : ta_keep n1 n2 -> ta_keep n2 n3 -> ta_keep n1 n3.
Proof.
  intros [T12 H12] [T23 H23]. split; [eapply same_tags_trans; eauto|congruence].
Qed.

Lemma ta_keep_tags n n' : ta_keep n n' -> same_tags n n'.
Proof. intros [H _]. exact H. Qed.

Lemma ta_keep_step d d' : related ta_keep d d' -> related ta_step d d'.
Proof.
  unfold related. intros H. eapply Forall2_impl; [exact H|].
  intros n n' [T E]. split; [exact T|]. left; exact E.
Qed.

Lemma settled_step s d d' : related ta_step d d' -> settled s d -> settled s d'.
Proof.
  intros Hr Hs n' Hn'.
  pose proof (first_match_related ta_step ta_step_tags d d' s Hr) as H.
  rewrite Hn' in H. inversion H as [n ? [_ Hta] Hn|]; subst.
  symmetry in Hn. specialize (Hs n Hn).
  destruct Hta as [E|N]; [rewrite E; exact Hs | exact N].
Qed.

Lemma calcGravity_ta_step o els d r d' :
  calcGravity o els d = (r, d') -> related ta_step d d'.
Proof.
  apply (preserves_calcGravity ta_step ta_step_refl ta_step_trans);
    intros; (split; [apply same_tags_with_css|]); padding_cases;
    try (left; reflexivity).
  right. apply calc_text_align_explicit.
Qed.

Lemma apply_children_ta_step o gd cs d r d' :
  apply_children o gd cs d = (r, d') -> related ta_step d d'.
Proof.
  apply (preserves_apply_children ta_step ta_step_refl ta_step_trans);
    intros; (split; [apply same_tags_with_css|]); padding_cases;
    try (left; reflexivity).
  right. apply calc_text_align_explicit.
Qed.

(** A setter followed by a getter on the same selector. *)
Lemma first_from_update_same d d' s f i l :
  root_init d' = root_init d ->
  first_from d' s i (update_from d s (with_css f) i l)
  = with_css f <$> first_from d s i l.
Proof.
  intros Hr. revert i. induction l as [|n l IH]; intros i; simpl.
  - reflexivity.
  - destruct (matches d s i n) eqn:E.
    + rewrite (matches_related same_tags (fun _ _ H => H) d d' s i n
                 (with_css f n) Hr (same_tags_with_css f n)).
      rewrite E. reflexivity.
    + rewrite (matches_related same_tags (fun _ _ H => H) d d' s i n n Hr
                 (same_tags_refl n)).
      rewrite E. apply IH.
Qed.

Lemma update_all_tags s f d : related same_tags d (update_all s (with_css f) d).
Proof.
  unfold related, update_all.
  apply (update_from_related same_tags same_tags_refl).
  intros n. apply same_tags_with_css.
Qed.

Lemma first_match_update_same s f d :
  first_match s (update_all s (with_css f) d) = with_css f <$> first_match s d.
Proof.
  apply first_from_update_same.
  apply (related_root_init same_tags (fun _ _ H => H)), update_all_tags.
Qed.

(** ** What the write-back of one child does *)

Lemma apply_child_eq o gd c d :
  apply_child o gd c d =
  match child_data_of c with
  | None => (TypeError, d)
  | Some cd =>
      (Ok tt,
       update_all (child_id c)
         (with_css (set_margins (c_margin_top cd) (c_margin_right cd)
                      (c_margin_bottom cd) (c_margin_left cd)))
         (aligned gd c cd d))
  end.
Proof.
  unfold apply_child, aligned, bind, outerHeight, css_text_align, throw.
  destruct (child_data_of c) as [cd|]; [|reflexivity].
  unfold ret at 1.
  destruct (first_match (child_id c) d) as [n|]; [|reflexivity].
  destruct (String.eqb (text_align (css n)) "start"); reflexivity.
Qed.

Lemma aligned_settled gd c cd d : settled (child_id c) (aligned gd c cd d).
Proof.
  unfold aligned, settled.
  destruct (first_match (child_id c) d) as [n|] eqn:E.
  - destruct (String.eqb (text_align (css n)) "start") eqn:Es.
    + intros n'. rewrite first_match_update_same, E. intros [= <-].
      apply calc_text_align_explicit.
    + intros n'. rewrite E. intros [= <-].
      apply String.eqb_neq. exact Es.
  - intros n' H. congruence.
Qed.

Lemma aligned_of_settled gd c cd d :
  settled (child_id c) d -> aligned gd c cd d = d.
Proof.
  unfold aligned, settled. intros Hs.
  destruct (first_match (child_id c) d) as [n|]; [|reflexivity].
  destruct (String.eqb (text_align (css n)) "start") eqn:Es; [|reflexivity].
  apply String.eqb_eq in Es. exfalso. exact (Hs n eq_refl Es).
Qed.

Lemma update_margins_ta_keep s t r b l d :
  related ta_keep d (update_all s (with_css (set_margins t r b l)) d).
Proof.
  unfold related, update_all.
  apply (update_from_related ta_keep ta_keep_refl).
  intros n. split; [apply same_tags_with_css | reflexivity].
Qed.

Lemma update_padding_ta_keep s v d :
  related ta_keep d (update_all s (with_css (set_padding_top v)) d).
Proof.
  unfold related, update_all.
  apply (update_from_related ta_keep ta_keep_refl).
  intros n. split; [apply same_tags_with_css |]. padding_cases; reflexivity.
Qed.

Lemma apply_child_settles o gd c d d' :
  apply_child o gd c d = (Ok tt, d') -> settled (child_id c) d'.
Proof.
  rewrite apply_child_eq. destruct (child_data_of c) as [cd|]; [|discriminate].
  intros [= <-]. eapply settled_step; [|apply (aligned_settled gd c cd d)].
  apply ta_keep_step, update_margins_ta_keep.
Qed.

Lemma apply_children_settle o gd cs d d' :
  apply_children o gd cs d = (Ok tt, d') ->
  Forall (fun c => settled (child_id c) d') cs.
Proof.
  revert d. induction cs as [|c cs IH]; intros d; simpl.
  - constructor.
  - unfold bind. destruct (apply_child o gd c d) as [[[]|] d1] eqn:E;
      [|discriminate].
    intros H. constructor; [|eapply IH, H].
    eapply settled_step; [eapply apply_children_ta_step, H|].
    eapply apply_child_settles, E.
Qed.

Lemma calcGroup_settles o g d g' d' :
  calcGroup o g d = (Ok g', d') ->
  Forall (fun c => settled (child_id c) d') (group_children g').
Proof.
  unfold calcGroup, bind.
  destruct (measure_group o g d) as [[[cs gd]|] d1]; [|discriminate].
  unfold css_set at 1.
  destruct (apply_children o gd cs _) as [[[]|] d2] eqn:E; [|discriminate].
  intros [= <- <-]. simpl. eapply apply_children_settle, E.
Qed.

(** After a pass that completes, no child of any group reads 'start'. *)
Lemma calcGravity_settles o els d els' d' :
  calcGravity o els d = (Ok els', d') ->
  Forall (fun g => Forall (fun c => settled (child_id c) d') (group_children g))
    els'.
Proof.
  revert d els'. induction els as [|g els IH]; intros d els'; simpl.
  - intros [= <- <-]. constructor.
  - unfold bind, ret.
    destruct (calcGroup o g d) as [[g'|] d1] eqn:Eg; [|discriminate].
    destruct (calcGravity o els d1) as [[r|] d2] eqn:Er; [|discriminate].
    intros [= <- <-]. constructor; [|eapply IH, Er].
    apply calcGroup_settles in Eg.
    eapply Forall_impl; [exact Eg|]. intros c Hc.
    eapply settled_step; [eapply calcGravity_ta_step, Er | exact Hc].
Qed.

(** On settled children a pass writes no text alignment. *)
Lemma apply_child_keeps o gd c d r d' :
  settled (child_id c) d ->
  apply_child o gd c d = (r, d') -> related ta_keep d d'.
Proof.
  intros Hs. rewrite apply_child_eq.
  destruct (child_data_of c) as [cd|].
  - rewrite (aligned_of_settled gd c cd d Hs). intros [= _ <-].
    apply update_margins_ta_keep.
  - intros [= _ <-]. apply (related_refl ta_keep ta_keep_refl).
Qed.

Lemma apply_children_keep o gd cs d r d' :
  Forall (fun c => settled (child_id c) d) cs ->
  apply_children o gd cs d = (r, d') -> related ta_keep d d'.
Proof.
  revert d. induction cs as [|c cs IH]; intros d Hs; simpl.
  - intros [= _ <-]. apply (related_refl ta_keep ta_keep_refl).
  - inversion Hs as [|? ? Hc Hcs]; subst. unfold bind.
    destruct (apply_child o gd c d) as [[[]|] d1] eqn:E.
    + intros H. pose proof (apply_child_keeps _ _ _ _ _ _ Hc E) as H1.
      eapply (related_trans ta_keep ta_keep_trans); [exact H1|].
      eapply IH; [|exact H].
      eapply Forall_impl; [exact Hcs|]. intros c' Hc'.
      eapply settled_step; [apply ta_keep_step, H1 | exact Hc'].
    + intros [= _ <-]. eapply apply_child_keeps; eauto.
Qed.

(** Measuring gives every child its data and keeps its selector. *)
Lemma measure_children_ids o cs gw gh d r gw' gh' d' :
  measure_children o cs gw gh d = (Ok (r, gw', gh'), d') ->
  d' = d /\ child_id <$> r = child_id <$> cs.
Proof.
  revert gw gh r gw' gh'. induction cs as [|c cs IH];
    intros gw gh r gw' gh'; simpl.
  - intros [= <- _ _ <-]. split; reflexivity.
  - unfold measure_child, first_node, bind.
    destruct (first_match (child_id c) d) as [n|]; simpl; [|discriminate].

    destruct (measure_children o cs _ _ d) as [[[[r0 gw0] gh0]|] d0] eqn:E;
      simpl; [|discriminate].
    intros [= <- _ _ <-]. destruct (IH _ _ _ _ _ E) as [-> Hr].
    split; [reflexivity|]. rewrite !fmap_cons, Hr. reflexivity.
Qed.

Lemma measure_group_ids o g d cs gd d' :
  measure_group o g d = (Ok (cs, gd), d') ->
  d' = d /\ child_id <$> cs = child_id <$> group_children g.
Proof.
  unfold measure_group, bind, first_node.
  destruct (first_match (group_parent g) d) as [pn|]; simpl; [|discriminate].
  destruct (first_match SelGravitationNode d) as [gn|]; simpl; [|discriminate].
  destruct (measure_children o (group_children g) 0 0 d)
    as [[[[r gw] gh]|] d0] eqn:E; simpl; [|discriminate].
  intros [= <- _ <-]. eapply measure_children_ids, E.
Qed.

(** ** The shape of a group's processing *)

Lemma calcGroup_ok o g d g' d' :
  calcGroup o g d = (Ok g', d') ->
  exists cs gd,
    measure_group o g d = (Ok (cs, gd), d) /\
    g' = mkGroup (group_parent g) cs (Some gd) /\
    apply_children o gd cs
      (update_all (group_parent g)
         (with_css (set_padding_top (g_padding_top gd))) d) = (Ok tt, d').
Proof.
  unfold calcGroup, bind.
  destruct (measure_group o g d) as [[[cs gd]|] d1] eqn:Em; [|discriminate].
  pose proof (measure_group_reads _ _ _ _ _ Em) as ->.
  unfold css_set at 1.
  destruct (apply_children o gd cs _) as [[[]|] d2] eqn:Ea; [|discriminate].
  intros [= <- <-]. exists cs, gd. repeat split. exact Ea.
Qed.

Lemma settled_ids d (cs cs' : list child) :
  child_id <$> cs' = child_id <$> cs ->
  Forall (fun c => settled (child_id c) d) cs ->
  Forall (fun c => settled (child_id c) d) cs'.
Proof.
  intros Hid H.
  apply (Forall_fmap child_id (fun s => settled s d)).
  rewrite Hid. apply Forall_fmap. exact H.
Qed.

Lemma calcGroup_keeps o g d r d' :
  Forall (fun c => settled (child_id c) d) (group_children g) ->
  calcGroup o g d = (r, d') -> related ta_keep d d'.
Proof.
  intros Hs. unfold calcGroup, bind.
  destruct (measure_group o g d) as [[[cs gd]|] d1] eqn:Em.
  - destruct (measure_group_ids _ _ _ _ _ _ Em) as [-> Hid].
    unfold css_set at 1.
    set (d1 := update_all _ _ d).
    assert (H1 : related ta_keep d d1) by apply update_padding_ta_keep.
    destruct (apply_children o gd cs d1) as [[[]|] d2] eqn:Ea;
      intros [= _ <-];
      (eapply (related_trans ta_keep ta_keep_trans); [exact H1|]);
      (eapply apply_children_keep; [|exact Ea]);
      (eapply Forall_impl;
       [eapply settled_ids; [exact Hid | exact Hs]|]);
      intros c Hc; (eapply settled_step; [apply ta_keep_step, H1 | exact Hc]).
  - pose proof (measure_group_reads _ _ _ _ _ Em) as ->.
    intros [= _ <-]. apply (related_refl ta_keep ta_keep_refl).
Qed.

Lemma calcGravity_keeps o els d r d' :
  Forall (fun g => Forall (fun c => settled (child_id c) d) (group_children g))
    els ->
  calcGravity o els d = (r, d') -> related ta_keep d d'.
Proof.
  revert d r. induction els as [|g els IH]; intros d r Hs; simpl.
  - intros [= _ <-]. apply (related_refl ta_keep ta_keep_refl).
  - inversion Hs as [|? ? Hg Hels]; subst. unfold bind, ret.
    destruct (calcGroup o g d) as [[g'|] d1] eqn:Eg.
    + pose proof (calcGroup_keeps _ _ _ _ _ Hg Eg) as H1.
      destruct (calcGravity o els d1) as [[r'|] d2] eqn:Er;
        intros [= _ <-];
        (eapply (related_trans ta_keep ta_keep_trans); [exact H1|]);
        (eapply IH; [|exact Er]);
        (eapply Forall_impl; [exact Hels|]); intros g0 Hg0;
        (eapply Forall_impl; [exact Hg0|]); intros c Hc;
        (eapply settled_step; [apply ta_keep_step, H1 | exact Hc]).
    + intros [= _ <-]. eapply calcGroup_keeps; eauto.
Qed.

Lemma related_ta_keep_fmap d d' :
  related ta_keep d d' ->
  (fun n => text_align (css n)) <$> d' = (fun n => text_align (css n)) <$> d.
Proof.
  unfold related. induction 1 as [|n n' l l' [_ E] _ IH]; [reflexivity|].
  rewrite !fmap_cons, E, IH. reflexivity.
Qed.

(** ** Reading a document after a setter *)

Lemma update_from_lookup d s f i l j :
  update_from d s f i l !! j
  = (fun n => if matches d s (i + j) n then f n else n) <$> l !! j.
Proof.
  revert i j. induction l as [|n l IH]; intros i j; simpl.
  - reflexivity.
  - destruct j as [|j]; simpl.
    + rewrite Nat.add_0_r. reflexivity.
    + rewrite IH. replace (S i + j)%nat with (i + S j)%nat by lia.
      reflexivity.
Qed.

Lemma update_all_lookup s f d j :
  update_all s f d !! j
  = (fun n => if matches d s j n then f n else n) <$> d !! j.
Proof. unfold update_all. rewrite update_from_lookup. reflexivity. Qed.

Lemma matches_update_all s s' f d i n :
  matches (update_all s' (with_css f) d) s i n = matches d s i n.
Proof.
  apply (matches_related same_tags (fun _ _ H => H)); [|apply same_tags_refl].
  apply (related_root_init same_tags (fun _ _ H => H)), update_all_tags.
Qed.

Lemma matches_with_css d s i f n :
  matches d s i (with_css f n) = matches d s i n.
Proof. destruct s; reflexivity. Qed.

(** After [$(s).css(...)] every node matched by [s] carries the new style and
    every other node is as before. *)
Lemma update_all_matched s f d i n' :
  update_all s (with_css f) d !! i = Some n' ->
  exists n, d !! i = Some n /\
    matches (update_all s (with_css f) d) s i n' = matches d s i n /\
    n' = (if matches d s i n then with_css f n else n).
Proof.
  rewrite update_all_lookup.
  destruct (d !! i) as [n|]; [|discriminate].
  intros [= <-]. exists n. split; [reflexivity|]. split; [|reflexivity].
  rewrite matches_update_all.
  destruct (matches d s i n) eqn:E; [rewrite matches_with_css|]; exact E.
Qed.

(** ** What is measured for a group *)

Lemma measure_group_ok o g d cs gd d' :
  measure_group o g d = (Ok (cs, gd), d') ->
  exists pn gn,
    first_match (group_parent g) d = Some pn /\
    first_match SelGravitationNode d = Some gn /\
    measure_children o (group_children g) 0 0 d
      = (Ok (cs, gWidth gd, gHeight gd), d) /\
    aHeight gd = outer_height (geometry pn) /\
    g_offset_top gd = offset_top (geometry pn) /\
    gravity_top gd = offset_top (geometry gn) /\
    gravity_left gd = offset_left (geometry gn) /\
    g_padding_top gd
      = calc_padding_top (gHeight gd) (aHeight gd)
          (gravity_top gd - (g_offset_top gd + gHeight gd / 2))
          (g_offset_top gd).
Proof.
  unfold measure_group, first_node, bind.
  destruct (first_match (group_parent g) d) as [pn|]; simpl; [|discriminate].
  destruct (first_match SelGravitationNode d) as [gn|]; simpl; [|discriminate].
  destruct (measure_children o (group_children g) 0 0 d)
    as [[[[r gw] gh]|] d0] eqn:E; simpl; [|discriminate].
  destruct (measure_children_ids _ _ _ _ _ _ _ _ _ E) as [-> _].
  intros [= <- <- _]. exists pn, gn. simpl. repeat split.
Qed.

Lemma pad_keep_refl n : pad_keep n n.
Proof. split; [apply same_tags_refl | reflexivity]. Qed.

Lemma pad_keep_trans n1 n2 n3 :
  pad_keep n1 n2 -> pad_keep n2 n3 -> pad_keep n1 n3.
Proof.
  intros [T12 H12] [T23 H23]. split; [eapply same_tags_trans; eauto|congruence].
Qed.

Lemma pad_keep_tags n n' : pad_keep n n' -> same_tags n n'.
Proof. intros [H _]. exact H. Qed.

(** The write-back of the children does not touch any padding. *)
Lemma apply_children_pad_keep o gd cs d r d' :
  apply_children o gd cs d = (r, d') -> related pad_keep d d'.
Proof.
  apply (preserves_apply_children pad_keep pad_keep_refl pad_keep_trans);
    intros; (split; [apply same_tags_with_css | reflexivity]).
Qed.

(** What a padding write leaves on an element. *)
Lemma padding_top_set v s :
  (0 <= v -> padding_top (set_padding_top v s) = v) /\
  (v < 0 -> set_padding_top v s = s).
Proof.
  unfold set_padding_top. destruct (Qltb v 0) eqn:E.
  - apply Qltb_lt in E. split; [intros H; exfalso; lra | reflexivity].
  - apply Qltb_ge in E. split; [reflexivity | intros H; exfalso; lra].
Qed.

(** After a group is processed, every element its parent selector resolves to
    carries the padding computed for the group, unless that padding is
    negative: then the element has the padding it had before. *)
Lemma calcGroup_padding_written o g d cs gd d' :
  apply_children o gd cs
    (update_all (group_parent g)
       (with_css (set_padding_top (g_padding_top gd))) d) = (Ok tt, d') ->
  forall i n, d' !! i = Some n -> matches d' (group_parent g) i n = true ->
    exists n0, d !! i = Some n0 /\
      (0 <= g_padding_top gd -> padding_top (css n) = g_padding_top gd) /\
      (g_padding_top gd < 0 -> padding_top (css n) = padding_top (css n0)).
Proof.
  set (d1 := update_all _ _ d). intros Ha i n Hi Hm.
  pose proof (apply_children_pad_keep _ _ _ _ _ _ Ha) as Hr.
  destruct (Forall2_lookup_r _ _ _ _ _ Hr Hi) as (n1 & Hi1 & [Ht Hp]).
  rewrite Hp.
  rewrite (matches_related pad_keep pad_keep_tags d1 d' (group_parent g) i n1 n)
    in Hm; [| apply (related_root_init pad_keep pad_keep_tags), Hr
            | split; assumption].
  destruct (update_all_matched _ _ _ _ _ Hi1) as (n0 & Hi0 & Hm0 & ->).
  fold d1 in Hm0. rewrite Hm0 in Hm. rewrite Hm.
  exists n0. split; [exact Hi0|]. simpl.
  destruct (padding_top_set (g_padding_top gd) (css n0)) as [H1 H2].
  split; [exact H1|]. intros Hneg. rewrite (H2 Hneg). reflexivity.
Qed.

(** The three branches of lines 206-218. *)
Lemma calc_padding_top_cases gh ah dt ot :
  (ah <= gh -> calc_padding_top gh ah dt ot = 0) /\
  (gh < ah -> gh <= ah - dt -> calc_padding_top gh ah dt ot = dt - ot) /\
  (gh < ah -> ~ gh <= ah - dt -> calc_padding_top gh ah dt ot = ah - gh).
Proof.
  unfold calc_padding_top. split; [|split].
  - intros Hle. apply Qleb_le in Hle. rewrite Hle. reflexivity.
  - intros Hlt Hle. apply Qleb_gt in Hlt. apply Qleb_le in Hle.
    rewrite Hlt, Hle. reflexivity.
  - intros Hlt Hn. apply Qleb_gt in Hlt. rewrite Hlt.
    destruct (Qleb gh (ah - dt)) eqn:E; [|reflexivity].
    apply Qleb_le in E. contradiction.
Qed.

(** The measuring loop stores, for every child, the sizes and the center of
    the element its selector resolves to, and adds up the vertical
    extents. *)
Lemma measure_children_on o cs : forall gw gh d r gw' gh' d',
  measure_children o cs gw gh d = (Ok (r, gw', gh'), d') ->
  Forall2 (child_measured_on d) cs r /\
  gh' == gh + sum_extents child_extent_v r.
Proof.
  induction cs as [|c cs IH]; intros gw gh d r gw' gh' d'; simpl.
  - intros [= <- _ <- _]. split; [constructor|]. simpl. ring.
  - unfold measure_child, first_node, bind.
    destruct (first_match (child_id c) d) as [n|] eqn:En; simpl; [|discriminate].
    match goal with
    | |- context [measure_children o cs ?a ?b d] =>
        destruct (measure_children o cs a b d)
          as [[[[r0 gw0] gh0]|] d0] eqn:E; simpl; [|discriminate]
    end.
    intros [= <- _ <- _].
    destruct (IH _ _ _ _ _ _ _ E) as (Hm & Hh).
    split.
    + constructor; [|exact Hm]. split; [reflexivity|].
      eexists n, _. split; [exact En|]. simpl. repeat split.
    + simpl. unfold child_extent_v at 1. simpl. rewrite Hh. ring.
Qed.

(** What a processed group has measured, computed and written for its
    padding. *)
Lemma calcGroup_padding o g d g' d' :
  calcGroup o g d = (Ok g', d') ->
  exists gd pn gn,
    group_data_of g' = Some gd /\
    first_match (group_parent g) d = Some pn /\
    first_match SelGravitationNode d = Some gn /\
    aHeight gd = outer_height (geometry pn) /\
    g_offset_top gd = offset_top (geometry pn) /\
    gravity_top gd = offset_top (geometry gn) /\
    Forall2 (child_measured_on d) (group_children g) (group_children g') /\
    gHeight gd == sum_extents child_extent_v (group_children g') /\
    g_padding_top gd
      = calc_padding_top (gHeight gd) (aHeight gd)
          (gravity_top gd - (g_offset_top gd + gHeight gd / 2))
          (g_offset_top gd) /\
    (forall i n, d' !! i = Some n -> matches d' (group_parent g) i n = true ->
       exists n0, d !! i = Some n0 /\
         (0 <= g_padding_top gd -> padding_top (css n) = g_padding_top gd) /\
         (g_padding_top gd < 0 ->
            padding_top (css n) = padding_top (css n0))).
Proof.
  intros H. destruct (calcGroup_ok _ _ _ _ _ H) as (cs & gd & Hm & -> & Ha).
  destruct (measure_group_ok _ _ _ _ _ _ Hm)
    as (pn & gn & Hp & Hg & Hc & Hah & Hot & Hgt & _ & Hpad).
  destruct (measure_children_on _ _ _ _ _ _ _ _ _ Hc) as (Hon & Hsum).
  exists gd, pn, gn. simpl.
  split; [reflexivity|]. split; [exact Hp|]. split; [exact Hg|].
  split; [exact Hah|]. split; [exact Hot|]. split; [exact Hgt|].
  split; [exact Hon|]. split; [rewrite Hsum; ring|]. split; [exact Hpad|].
  eapply calcGroup_padding_written, Ha.
Qed.

(** C2: the padding computed for a group follows the three-branch,
    first-match policy of lines 206-218: with
    [delta.top = attractorOffset.top - (containerOffset.top + gHeight/2)],
    it is 0 when [gHeight >= aHeight] (whatever the sign of [delta.top]);
    otherwise [delta.top - containerOffset.top] when
    [gHeight <= aHeight - delta.top]; otherwise [aHeight - gHeight].  Here
    [aHeight] and the offsets are those measured on the parent and on the
    gravitation node when the group is processed, and [gHeight] is the sum,
    over the group's children, of computed top margin + measured height +
    computed bottom margin.  The value is handed to [css()] for the parent:
    every element the parent selector resolves to carries it afterwards,
    except that a negative value, which is not a valid padding, leaves the
    element with the padding it had. *)
Theorem C2_padding_policy o g d g' d' :
  calcGroup o g d = (Ok g', d') ->
  exists gd pn gn,
    group_data_of g' = Some gd /\
    first_match (group_parent g) d = Some pn /\
    first_match SelGravitationNode d = Some gn /\
    aHeight gd = outer_height (geometry pn) /\
    g_offset_top gd = offset_top (geometry pn) /\
    gravity_top gd = offset_top (geometry gn) /\
    Forall2 (child_measured_on d) (group_children g) (group_children g') /\
    gHeight gd == sum_extents child_extent_v (group_children g') /\
    let delta_top := gravity_top gd - (g_offset_top gd + gHeight gd / 2) in
    (aHeight gd <= gHeight gd -> g_padding_top gd = 0) /\
    (gHeight gd < aHeight gd -> gHeight gd <= aHeight gd - delta_top ->
       g_padding_top gd = delta_top - g_offset_top gd) /\
    (gHeight gd < aHeight gd -> ~ gHeight gd <= aHeight gd - delta_top ->
       g_padding_top gd = aHeight gd - gHeight gd) /\
    (forall i n, d' !! i = Some n -> matches d' (group_parent g) i n = true ->
       exists n0, d !! i = Some n0 /\
         (0 <= g_padding_top gd -> padding_top (css n) = g_padding_top gd) /\
         (g_padding_top gd < 0 ->
            padding_top (css n) = padding_top (css n0))).
Proof.
  intros H.
  destruct (calcGroup_padding _ _ _ _ _ H)
    as (gd & pn & gn & Hgd & Hp & Hg & Hah & Hot & Hgt & Hon & Hsum & Hpad
        & Hw).
  exists gd, pn, gn. repeat (split; [assumption|]). cbv zeta.
  destruct (calc_padding_top_cases (gHeight gd) (aHeight gd)
              (gravity_top gd - (g_offset_top gd + gHeight gd / 2))
              (g_offset_top gd)) as (H1 & H2 & H3).
  rewrite <- Hpad in H1, H2, H3.
  split; [exact H1|]. split; [exact H2|]. split; [exact H3|exact Hw].
Qed.

(** C9 (as amended): with [containerOffset.top >= 0], the padding is 0 when
    [gHeight >= aHeight] and at most [aHeight - gHeight] when
    [gHeight < aHeight]; hence [gHeight + paddingTop <= aHeight] whenever the
    content is not already taller than the container. *)
Theorem C9_padding_bound o g d g' d' pn :
  calcGroup o g d = (Ok g', d') ->
  first_match (group_parent g) d = Some pn ->
  0 <= offset_top (geometry pn) ->
  exists gd,
    group_data_of g' = Some gd /\
    (aHeight gd <= gHeight gd -> g_padding_top gd = 0) /\
    (gHeight gd < aHeight gd ->
       g_padding_top gd <= aHeight gd - gHeight gd) /\
    (gHeight gd <= aHeight gd ->
       gHeight gd + g_padding_top gd <= aHeight gd).
Proof.
  intros H Hpn Hoff.
  destruct (calcGroup_padding _ _ _ _ _ H)
    as (gd & pn' & gn & Hgd & Hp & _ & _ & Hot & _ & _ & _ & Hpad & _).
  rewrite Hpn in Hp. injection Hp as <-. rewrite <- Hot in Hoff.
  destruct (calc_padding_top_cases (gHeight gd) (aHeight gd)
              (gravity_top gd - (g_offset_top gd + gHeight gd / 2))
              (g_offset_top gd)) as (H1 & H2 & H3).
  rewrite <- Hpad in H1, H2, H3.
  exists gd. split; [exact Hgd|].
  assert (Hlt : gHeight gd < aHeight gd ->
                g_padding_top gd <= aHeight gd - gHeight gd).
  { intros Hlt.
    destruct (Qlt_le_dec
                (aHeight gd
                 - (gravity_top gd - (g_offset_top gd + gHeight gd / 2)))
                (gHeight gd)) as [Hgt|Hle].
    - rewrite (H3 Hlt); [apply Qle_refl|]. apply Qlt_not_le, Hgt.
    - rewrite (H2 Hlt Hle). lra. }
  split; [exact H1|]. split; [exact Hlt|].
  intros Hle. destruct (Qlt_le_dec (gHeight gd) (aHeight gd)) as [Hl|Hg].
  - specialize (Hlt Hl). lra.
  - rewrite (H1 Hg). lra.
Qed.

(** ** The force model (lines 171-185) *)

Lemma measure_child_ok o c d cd d' :
  measure_child o c d = (Ok cd, d') ->
  exists n,
    first_match (child_id c) d = Some n /\ d' = d /\
    c_width cd = outer_width (geometry n) /\
    c_height cd = outer_height (geometry n) /\
    c_force cd = c_height cd * k o /\
    c_center_left cd = offset_left (geometry n) + c_width cd / 2 /\
    c_margin_top cd
      = parseInt_px (margin_top (css n)) / density o * c_force cd /\
    c_margin_right cd
      = parseInt_px (margin_right (css n)) / density o * c_force cd /\
    c_margin_bottom cd
      = parseInt_px (margin_bottom (css n)) / density o * c_force cd /\
    c_margin_left cd
      = parseInt_px (margin_left (css n)) / density o * c_force cd.
Proof.
  unfold measure_child, first_node, bind.
  destruct (first_match (child_id c) d) as [n|]; simpl; [|discriminate].
  intros [= <- <-]. exists n. simpl. repeat split.
Qed.

(** C3 (as amended): a child's force is its own measured outer height times
    [k]; with [density <> 0], each of its four margins is the integer part
    (truncation toward zero, by [parseInt]) of that side's current pixel
    margin, divided by [density] and multiplied by the force, for every side
    whose current margin [css()] reports in full and in decimal notation;
    and for [k >= 0] the force does not decrease when the height grows. *)
Theorem C3_force_and_margins o c d cd d' :
  measure_child o c d = (Ok cd, d') ->
  ~ density o == 0 ->
  exists n,
    first_match (child_id c) d = Some n /\
    c_height cd = outer_height (geometry n) /\
    c_force cd = c_height cd * k o /\
    Forall (fun '(m, computed) =>
              plain_px m ->
              computed
              = inject_Z (Z.quot (Qnum m) (Zpos (Qden m))) / density o
                * c_force cd)
      [ (margin_top (css n), c_margin_top cd);
        (margin_right (css n), c_margin_right cd);
        (margin_bottom (css n), c_margin_bottom cd);
        (margin_left (css n), c_margin_left cd) ] /\
    (forall c2 d2 cd2 d2',
       measure_child o c2 d2 = (Ok cd2, d2') ->
       0 <= k o -> c_height cd <= c_height cd2 ->
       c_force cd <= c_force cd2).
Proof.
  intros H _.
  destruct (measure_child_ok _ _ _ _ _ H)
    as (n & Hn & _ & _ & Hh & Hf & _ & Ht & Hr & Hb & Hl).
  exists n. repeat (split; [assumption|]). split.
  - four_sides; intros _; assumption.
  - intros c2 d2 cd2 d2' H2 Hk Hle.
    destruct (measure_child_ok _ _ _ _ _ H2)
      as (n2 & _ & _ & _ & _ & Hf2 & _).
    rewrite Hf, Hf2. apply Qmult_le_compat_r; assumption.
Qed.

(** ** The alignment step (lines 229-238) *)

Lemma three_halves (c : Q) : c * 3 / 2 == (3 # 2) * c.
Proof. field. Qed.

Lemma calc_text_align_cases c g :
  (c < g / 2 -> calc_text_align c g = "left") /\
  (~ c < g / 2 -> g < (3 # 2) * c -> calc_text_align c g = "center") /\
  (~ c < g / 2 -> ~ g < (3 # 2) * c -> calc_text_align c g = "right").
Proof.
  unfold calc_text_align. repeat split.
  - intros H. apply Qltb_lt in H. rewrite H. reflexivity.
  - intros H1 H2. destruct (Qltb c (g / 2)) eqn:E1.
    + apply Qltb_lt in E1. contradiction.
    + assert (E2 : Qltb g (c * 3 / 2) = true).
      { apply Qltb_lt. rewrite three_halves. exact H2. }
      rewrite E2. reflexivity.
  - intros H1 H2. destruct (Qltb c (g / 2)) eqn:E1.
    + apply Qltb_lt in E1. contradiction.
    + destruct (Qltb g (c * 3 / 2)) eqn:E2; [|reflexivity].
      apply Qltb_lt in E2. exfalso. apply H2.
      rewrite <- three_halves. exact E2.
Qed.

(** The styles found after the write-back of a child, on the elements its
    selector resolves to and on the others. *)
Lemma apply_child_matched o gd c cd d d' :
  child_data_of c = Some cd ->
  apply_child o gd c d = (Ok tt, d') ->
  forall i m, d' !! i = Some m ->
    exists m0, d !! i = Some m0 /\
      matches d' (child_id c) i m = matches d (child_id c) i m0 /\
      (matches d (child_id c) i m0 = false -> m = m0) /\
      (matches d (child_id c) i m0 = true ->
         margin_top (css m) = c_margin_top cd /\
         margin_right (css m) = c_margin_right cd /\
         margin_bottom (css m) = c_margin_bottom cd /\
         margin_left (css m) = c_margin_left cd /\
         forall n, first_match (child_id c) d = Some n ->
           text_align (css m)
           = if String.eqb (text_align (css n)) "start"
             then calc_text_align (c_center_left cd) (gravity_left gd)
             else text_align (css m0)).
Proof.
  intros Hcd. rewrite apply_child_eq, Hcd. intros [= <-] i m Hi.
  destruct (update_all_matched _ _ _ _ _ Hi) as (m1 & Hi1 & Hm1 & ->).
  rewrite Hm1. clear Hi Hm1. revert Hi1. unfold aligned.
  destruct (first_match (child_id c) d) as [n|] eqn:En.
  - destruct (String.eqb (text_align (css n)) "start") eqn:Es.
    + intros Hi1.
      destruct (update_all_matched _ _ _ _ _ Hi1) as (m0 & Hi0 & Hm0 & ->).
      exists m0. split; [exact Hi0|]. rewrite Hm0.
      split; [reflexivity|].
      destruct (matches d (child_id c) i m0) eqn:E0.
      * split; [discriminate|]. intros _. simpl. repeat split.
        intros n' [= <-]. rewrite Es. reflexivity.
      * split; [reflexivity|discriminate].
    + intros Hi1. exists m1. split; [exact Hi1|]. split; [reflexivity|].
      destruct (matches d (child_id c) i m1) eqn:E0.
      * split; [discriminate|]. intros _. simpl. repeat split.
        intros n' [= <-]. rewrite Es. reflexivity.
      * split; [reflexivity|discriminate].
  - intros Hi1. exists m1. split; [exact Hi1|]. split; [reflexivity|].
    destruct (matches d (child_id c) i m1) eqn:E0.
    + split; [discriminate|]. intros _. simpl. repeat split.
      intros n' [=].
    + split; [reflexivity|discriminate].
Qed.

(** C4: when a group is processed, [G] is the horizontal offset measured on
    the gravitation node and, for each child, [c] is the horizontal center
    measured on the element its selector resolves to (offset + half of the
    outer width), both read before the group's first write.  The callback of
    line 226 for that child, on whatever document it finds, completes, and
    when the child's text-align currently reads 'start' it sets the
    text-align of every element the child's selector resolves to: to 'left'
    when [c < G/2], else to 'center' when [G < 1.5*c], else to 'right'; when
    it reads anything else no text-align is changed.  The document the group
    leaves is the one these callbacks, run in order after the padding write,
    produce. *)
Theorem C4_text_align_policy o g d g' d' :
  calcGroup o g d = (Ok g', d') ->
  exists gd gn,
    group_data_of g' = Some gd /\
    first_match SelGravitationNode d = Some gn /\
    apply_children o gd (group_children g')
      (update_all (group_parent g)
         (with_css (set_padding_top (g_padding_top gd))) d) = (Ok tt, d') /\
    Forall2
      (fun c c' =>
         child_id c' = child_id c /\
         exists n0,
           first_match (child_id c) d = Some n0 /\
           let G := offset_left (geometry gn) in
           let cc :=
             offset_left (geometry n0) + outer_width (geometry n0) / 2 in
           forall d1 n,
             first_match (child_id c) d1 = Some n ->
             exists d2,
               apply_child o gd c' d1 = (Ok tt, d2) /\
               (text_align (css n) = "start" ->
                forall i m, d2 !! i = Some m ->
                  matches d2 (child_id c) i m = true ->
                  (cc < G / 2 -> text_align (css m) = "left") /\
                  (~ cc < G / 2 -> G < (3 # 2) * cc ->
                     text_align (css m) = "center") /\
                  (~ cc < G / 2 -> ~ G < (3 # 2) * cc ->
                     text_align (css m) = "right")) /\
               (text_align (css n) <> "start" ->
                (fun m => text_align (css m)) <$> d2
                = (fun m => text_align (css m)) <$> d1))
      (group_children g) (group_children g').
Proof.
  intros H. destruct (calcGroup_ok _ _ _ _ _ H) as (cs & gd & Hm & -> & Ha).
  destruct (measure_group_ok _ _ _ _ _ _ Hm)
    as (pn & gn & _ & Hg & Hc & _ & _ & _ & Hgl & _).
  destruct (measure_children_on _ _ _ _ _ _ _ _ _ Hc) as (Hon & _).
  exists gd, gn. simpl. split; [reflexivity|]. split; [exact Hg|].
  split; [exact Ha|].
  eapply Forall2_impl; [exact Hon|].
  intros c c' (Hid & n0 & cd & Hn0 & Hcd & _ & _ & _ & Hcl).
  split; [exact Hid|]. exists n0. split; [exact Hn0|]. cbv zeta.
  rewrite <- Hcl, <- Hgl, <- Hid. intros d1 n Hn.
  destruct (apply_child o gd c' d1) as [r d2] eqn:E.
  assert (Hr : r = Ok tt).
  { rewrite apply_child_eq, Hcd in E. congruence. }
  subst r. exists d2. split; [reflexivity|]. split.
  - intros Hs i m Hi Hmt.
    destruct (apply_child_matched _ _ _ _ _ _ Hcd E i m Hi)
      as (m0 & _ & Hm0 & _ & Ht).
    rewrite Hm0 in Hmt. destruct (Ht Hmt) as (_ & _ & _ & _ & Hta).
    rewrite (Hta n Hn), Hs. simpl. apply calc_text_align_cases.
  - intros Hs. apply related_ta_keep_fmap.
    eapply apply_child_keeps; [|exact E].
    intros n'. rewrite Hn. intros [= <-]. exact Hs.
Qed.

(** ** Groups keep their selectors across a pass *)

Lemma calcGroup_shape o g d g' d' :
  calcGroup o g d = (Ok g', d') ->
  group_parent g' = group_parent g /\
  child_id <$> group_children g' = child_id <$> group_children g.
Proof.
  intros H. destruct (calcGroup_ok _ _ _ _ _ H) as (cs & gd & Hm & -> & _).
  destruct (measure_group_ids _ _ _ _ _ _ Hm) as [_ Hid].
  split; [reflexivity | exact Hid].
Qed.

Lemma calcGravity_empty_children o els : forall d els' d',
  calcGravity o els d = (Ok els', d') ->
  Forall (fun g => group_children g = []) els ->
  Forall (fun g => group_children g = []) els'.
Proof.
  induction els as [|g els IH]; intros d els' d'; simpl.
  - intros [= <- _] _. constructor.
  - unfold bind, ret.
    destruct (calcGroup o g d) as [[g'|] d1] eqn:Eg; [|discriminate].
    destruct (calcGravity o els d1) as [[r|] d2] eqn:Er; [|discriminate].
    intros [= <- _] Hall. inversion Hall as [|? ? Hg Hrest]; subst.
    constructor; [|eapply IH; eauto].
    destruct (calcGroup_shape _ _ _ _ _ Eg) as [_ Hid].
    rewrite Hg in Hid. apply fmap_nil_inv in Hid. exact Hid.
Qed.

Lemma calcGravity_tail o g els d els' d' :
  calcGravity o (g :: els) d = (Ok els', d') ->
  Forall (fun g => group_children g = []) els ->
  Forall (fun g => group_children g = []) (tail els').
Proof.
  simpl. unfold bind, ret.
  destruct (calcGroup o g d) as [[g'|] d1] eqn:Eg; [|discriminate].
  destruct (calcGravity o els d1) as [[r|] d2] eqn:Er; [|discriminate].
  intros [= <- _] Hall. simpl. eapply calcGravity_empty_children; eauto.
Qed.

(** ** buildCache: the group index stays 0 *)

Lemma attr_alter_parent d p i :
  attr_gravity_id (alter add_gravity_parent p d) i = attr_gravity_id d i.
Proof.
  unfold attr_gravity_id. destruct (decide (p = i)) as [->|Hne].
  - rewrite list_lookup_alter_eq. destruct (d !! i); reflexivity.
  - rewrite list_lookup_alter_ne by exact Hne. reflexivity.
Qed.

Lemma attr_alter_id_ne d v e i :
  e <> i ->
  attr_gravity_id (alter (set_gravity_id v) e d) i = attr_gravity_id d i.
Proof.
  intros Hne. unfold attr_gravity_id.
  rewrite list_lookup_alter_ne by exact Hne. reflexivity.
Qed.

Lemma attr_alter_id_eq d v i :
  (i < length d)%nat ->
  attr_gravity_id (alter (set_gravity_id v) i d) i = Some v.
Proof.
  intros Hlt. unfold attr_gravity_id. rewrite list_lookup_alter_eq.
  destruct (lookup_lt_is_Some_2 d i Hlt) as [n ->]. reflexivity.
Qed.

Lemma attr_alter_id_self d v e :
  attr_gravity_id (alter (set_gravity_id v) e d) e
  = match d !! e with
    | Some _ => Some v
    | None => None
    end.
Proof.
  unfold attr_gravity_id. rewrite list_lookup_alter_eq.
  destruct (d !! e); reflexivity.
Qed.

Lemma attr_alter_id_some d v e i :
  is_Some (attr_gravity_id (alter (set_gravity_id v) e d) i) ->
  i = e \/ is_Some (attr_gravity_id d i).
Proof.
  destruct (decide (e = i)) as [->|Hne]; [left; reflexivity|].
  rewrite attr_alter_id_ne by exact Hne. right; assumption.
Qed.

Lemma pretty_nat_0 : pretty 0%nat = "0".
Proof. reflexivity. Qed.

(** One iteration, started with [parents = 0]. *)
Lemma buildCache_each_zero index e p st st' :
  parents st = 0%nat ->
  buildCache_each index e p st = Ok st' ->
  parents st' = 0%nat /\
  length (doc st') = length (doc st) /\
  (exists n, elements st ++ replicate n group_zero <> [] /\
             elements st'
             = add_children [child_ref index]
                 (elements st ++ replicate n group_zero)) /\
  (forall i, i <> e ->
     match attr_gravity_id (doc st) i with
     | Some v => attr_gravity_id (doc st') i = Some v
     | None =>
         (i = p -> (i < length (doc st))%nat ->
          attr_gravity_id (doc st') i = Some "0") /\
         (i <> p -> attr_gravity_id (doc st') i = None)
     end).
Proof.
  intros Hp. unfold buildCache_each. rewrite Hp. simpl Nat.ltb. cbv iota.
  rewrite !pretty_nat_0.
  set (d2 := alter (set_gravity_id (pretty index)) e
               (alter add_gravity_parent p (doc st))).
  assert (Hattr : forall i, i <> e ->
            attr_gravity_id d2 i = attr_gravity_id (doc st) i).
  { intros i Hi. unfold d2. rewrite attr_alter_id_ne by congruence.
    apply attr_alter_parent. }
  assert (Hlen : length d2 = length (doc st)).
  { unfold d2. rewrite !length_alter. reflexivity. }
  destruct (attr_gravity_id d2 p) as [w|] eqn:Ep; simpl.
  - destruct (elements st) as [|g r] eqn:Ee; simpl; [discriminate|].
    intros [= <-]. simpl. split; [reflexivity|]. split; [exact Hlen|].
    split.
    + exists 0%nat. simpl. rewrite app_nil_r. split; [discriminate|].
      reflexivity.
    + intros i Hi. rewrite (Hattr i Hi).
      destruct (attr_gravity_id (doc st) i) eqn:Ei; [reflexivity|].
      split; [|reflexivity]. intros -> _.
      rewrite (Hattr p Hi) in Ep. congruence.
  - destruct (elements st ++ [mkGroup (SelParent "0") [] None])
      as [|g r] eqn:Ee; simpl; [discriminate|].
    intros [= <-]. simpl. split; [reflexivity|].
    split; [rewrite length_alter; exact Hlen|]. split.
    + exists 1%nat. simpl. unfold group_zero. rewrite Ee.
      split; [discriminate|]. reflexivity.
    + intros i Hi. destruct (decide (i = p)) as [->|Hip].
      * rewrite (Hattr p Hi) in Ep. rewrite Ep.
        split; [|congruence]. intros _ Hlt.
        apply attr_alter_id_eq. rewrite Hlen. exact Hlt.
      * rewrite attr_alter_id_ne by congruence. rewrite (Hattr i Hi).
        destruct (attr_gravity_id (doc st) i); [reflexivity|].
        split; [congruence|reflexivity].
Qed.

Lemma add_children_step c cs (L N : list group) :
  L <> [] ->
  add_children cs (add_children [c] L ++ N) = add_children (c :: cs) (L ++ N).
Proof.
  destruct L as [|g r]; [congruence|]. intros _. simpl.
  rewrite <- app_assoc. reflexivity.
Qed.

Lemma buildCache_loop_zero found : forall index st st',
  parents st = 0%nat ->
  buildCache_loop index found st = Ok st' ->
  parents st' = 0%nat /\
  length (doc st') = length (doc st) /\
  exists n, (found <> [] -> elements st ++ replicate n group_zero <> []) /\
            elements st'
            = add_children (child_ref <$> seq index (length found))
                (elements st ++ replicate n group_zero).
Proof.
  induction found as [|[e p] rest IH]; intros index st st' Hp; simpl.
  - intros [= <-]. split; [exact Hp|]. split; [reflexivity|].
    exists 0%nat. simpl. rewrite app_nil_r. split; [congruence|].
    destruct (elements st) as [|g r]; [reflexivity|].
    simpl. rewrite app_nil_r. destruct g; reflexivity.
  - destruct (buildCache_each index e p st) as [st1|] eqn:E1; [|discriminate].
    intros H.
    destruct (buildCache_each_zero _ _ _ _ _ Hp E1)
      as (Hp1 & Hl1 & [n1 [Hne He1]] & _).
    destruct (IH _ _ _ Hp1 H) as (Hp' & Hl' & [n2 [_ He']]).
    split; [exact Hp'|]. split; [congruence|].
    exists (n1 + n2)%nat. rewrite replicate_add, app_assoc. split.
    + intros _ Hnil. apply app_eq_nil in Hnil. destruct Hnil as [Hnil _].
      exact (Hne Hnil).
    + rewrite He', He1. apply add_children_step, Hne.
Qed.

(** A parent that is not itself a flagged element ends with the id "0" once
    it has been met without one. *)
Lemma buildCache_loop_parent found : forall index st st' p0,
  parents st = 0%nat ->
  buildCache_loop index found st = Ok st' ->
  p0 ∉ (fst <$> found) ->
  (p0 < length (doc st))%nat ->
  attr_gravity_id (doc st) p0 = Some "0" \/
  (attr_gravity_id (doc st) p0 = None /\ p0 ∈ (snd <$> found)) ->
  attr_gravity_id (doc st') p0 = Some "0".
Proof.
  induction found as [|[e p] rest IH]; intros index st st' p0 Hp; simpl.
  - intros [= <-] _ _ [H|[_ H]]; [exact H|]. inversion H.
  - destruct (buildCache_each index e p st) as [st1|] eqn:E1; [|discriminate].
    intros H Hnot Hlt Hcase.
    apply not_elem_of_cons in Hnot.
    destruct Hnot as [Hne Hnot]. simpl in Hne.
    destruct (buildCache_each_zero _ _ _ _ _ Hp E1)
      as (Hp1 & Hl1 & _ & Hattr).
    specialize (Hattr p0 Hne).
    apply (IH _ _ _ p0 Hp1 H Hnot); [congruence|].
    destruct Hcase as [H0|[H0 Hin]]; rewrite H0 in Hattr.
    + left; exact Hattr.
    + destruct Hattr as [Heq Hneq].
      destruct (decide (p0 = p)) as [->|Hd].
      * left. apply Heq; [reflexivity|exact Hlt].
      * right. split; [apply Hneq, Hd|].
        apply elem_of_cons in Hin.
        destruct Hin as [Hin|Hin]; [simpl in Hin; congruence|exact Hin].
Qed.

(** The only values an iteration writes into a [gravity-id] attribute: the
    index of the flagged element itself (line 136) and 0 (line 138). *)
Lemma buildCache_each_written index e p st st' i :
  parents st = 0%nat ->
  buildCache_each index e p st = Ok st' ->
  attr_gravity_id (doc st') i = attr_gravity_id (doc st) i \/
  attr_gravity_id (doc st') i = Some "0" \/
  (i = e /\ attr_gravity_id (doc st') i = Some (pretty index)).
Proof.
  intros Hp H. destruct (decide (i = e)) as [->|Hne].
  - revert H. unfold buildCache_each. rewrite Hp. simpl Nat.ltb. cbv iota.
    rewrite !pretty_nat_0.
    set (d1 := alter add_gravity_parent p (doc st)).
    set (d2 := alter (set_gravity_id (pretty index)) e d1).
    assert (H2 : attr_gravity_id d2 e
                 = match d1 !! e with
                   | Some _ => Some (pretty index)
                   | None => None
                   end) by apply attr_alter_id_self.
    assert (H0 : d1 !! e = None -> attr_gravity_id (doc st) e = None).
    { intros E1. rewrite <- (attr_alter_parent (doc st) p e). fold d1.
      unfold attr_gravity_id. rewrite E1. reflexivity. }
    destruct (attr_gravity_id d2 p) as [w|] eqn:Ep; simpl.
    + destruct (elements st) as [|g r]; simpl; [discriminate|].
      intros [= <-]. simpl. rewrite H2.
      destruct (d1 !! e); [right; right; split; reflexivity|].
      left. symmetry. apply H0. reflexivity.
    + destruct (elements st ++ [mkGroup (SelParent "0") [] None])
        as [|g r]; simpl; [discriminate|].
      intros [= <-]. simpl. destruct (decide (p = e)) as [Hpe|Hpe].
      * rewrite Hpe in Ep. rewrite Ep in H2.
        destruct (d1 !! e) as [n|] eqn:E1; [discriminate|].
        left. rewrite (H0 eq_refl), Hpe. rewrite attr_alter_id_self.
        assert (E2 : d2 !! e = None).
        { unfold d2. rewrite list_lookup_alter_eq, E1. reflexivity. }
        rewrite E2. reflexivity.
      * rewrite attr_alter_id_ne by exact Hpe. rewrite H2.
        destruct (d1 !! e); [right; right; split; reflexivity|].
        left. symmetry. apply H0. reflexivity.
  - destruct (buildCache_each_zero _ _ _ _ _ Hp H) as (_ & Hl & _ & Hattr).
    specialize (Hattr i Hne).
    destruct (attr_gravity_id (doc st) i) as [v|]; [left; exact Hattr|].
    destruct Hattr as [Heq Hneq].
    destruct (decide (i = p)) as [->|Hip].
    + destruct (decide (p < length (doc st))%nat) as [Hlt|Hge].
      * right; left. apply Heq; [reflexivity|exact Hlt].
      * left. unfold attr_gravity_id.
        rewrite (lookup_ge_None_2 (doc st') p); [reflexivity|]. lia.
    + left. apply Hneq, Hip.
Qed.

Lemma buildCache_loop_written found : forall index st st' i,
  parents st = 0%nat ->
  buildCache_loop index found st = Ok st' ->
  attr_gravity_id (doc st') i = attr_gravity_id (doc st) i \/
  attr_gravity_id (doc st') i = Some "0" \/
  (exists j p, found !! j = Some (i, p) /\
               attr_gravity_id (doc st') i = Some (pretty (index + j)%nat)).
Proof.
  induction found as [|[e p] rest IH]; intros index st st' i Hp; simpl.
  - intros [= <-]. left; reflexivity.
  - destruct (buildCache_each index e p st) as [st1|] eqn:E1; [|discriminate].
    intros H.
    destruct (buildCache_each_zero _ _ _ _ _ Hp E1) as (Hp1 & _).
    destruct (IH _ _ _ i Hp1 H) as [Hf|[Hf|(j & q & Hj & Hf)]].
    + rewrite Hf.
      destruct (buildCache_each_written _ _ _ _ _ i Hp E1)
        as [H1|[H1|[-> H1]]].
      * left; exact H1.
      * right; left; exact H1.
      * right; right. exists 0%nat, p. split; [reflexivity|].
        rewrite Nat.add_0_r. exact H1.
    + right; left; exact Hf.
    + right; right. exists (S j), q. split; [exact Hj|].
      rewrite Hf. f_equal. f_equal. lia.
Qed.

(** Once [options.elements] is not empty no iteration can fail. *)
Lemma buildCache_each_total index e p st :
  parents st = 0%nat -> elements st <> [] ->
  exists st', buildCache_each index e p st = Ok st' /\
              parents st' = 0%nat /\ elements st' <> [].
Proof.
  intros Hp Hne. unfold buildCache_each. rewrite Hp. simpl Nat.ltb. cbv iota.
  destruct (elements st) as [|g r] eqn:Ee; [congruence|].
  destruct (attr_gravity_id _ p); simpl; rewrite ?Ee; simpl;
    eexists; (split; [reflexivity|]); simpl; (split; [reflexivity|]);
    discriminate.
Qed.

Lemma buildCache_loop_total found : forall index st,
  parents st = 0%nat -> elements st <> [] ->
  exists st', buildCache_loop index found st = Ok st'.
Proof.
  induction found as [|[e p] rest IH]; intros index st Hp Hne; simpl.
  - eexists; reflexivity.
  - destruct (buildCache_each_total index e p st Hp Hne)
      as (st1 & -> & Hp1 & Hne1).
    apply IH; assumption.
Qed.

(** With [options.elements] empty, the first iteration fails exactly when the
    parent it meets already has a [gravity-id]. *)
Lemma buildCache_each_first index e p st :
  parents st = 0%nat -> elements st = [] ->
  match buildCache_each index e p st with
  | Ok st' => elements st' <> [] /\ parents st' = 0%nat
  | TypeError => p = e \/ is_Some (attr_gravity_id (doc st) p)
  end.
Proof.
  intros Hp He. unfold buildCache_each. rewrite Hp, He.
  simpl Nat.ltb. cbv iota.
  destruct (attr_gravity_id _ p) as [w|] eqn:Ep; simpl.
  - destruct (attr_alter_id_some _ _ _ _ (mk_is_Some _ _ Ep)) as [H|H].
    + left; exact H.
    + right. rewrite attr_alter_parent in H. exact H.
  - split; [discriminate|reflexivity].
Qed.

Lemma find_gravity_init d :
  find_gravity (alter add_gravity_init 0%nat d) = find_gravity d.
Proof. destruct d; reflexivity. Qed.

Lemma attr_alter_init d i :
  attr_gravity_id (alter add_gravity_init 0%nat d) i = attr_gravity_id d i.
Proof.
  unfold attr_gravity_id. destruct (decide (0%nat = i)) as [<-|Hne].
  - rewrite list_lookup_alter_eq. destruct (d !! 0%nat); reflexivity.
  - rewrite list_lookup_alter_ne by exact Hne. reflexivity.
Qed.

Lemma add_children_zero cs n :
  add_children cs (replicate n group_zero)
  = match n with
    | O => []
    | S m => mkGroup (SelParent "0") cs None :: replicate m group_zero
    end.
Proof. destruct n; reflexivity. Qed.

(** ** The claims on whole passes *)

(** C6 (as amended): when the pass is run twice in succession, the second
    pass reading the styles the first one wrote, the text alignment of every
    element after the second pass is the one it had after the first.  (The
    margins are recomputed from the margins the first pass wrote and are not
    a fixed point.) *)
Theorem C6_alignment_fixed_point o els d els1 d1 r d2 :
  calcGravity o els d = (Ok els1, d1) ->
  calcGravity o els1 d1 = (r, d2) ->
  (fun n => text_align (css n)) <$> d2 = (fun n => text_align (css n)) <$> d1.
Proof.
  intros H1 H2. apply related_ta_keep_fmap.
  eapply calcGravity_keeps; [|exact H2].
  eapply calcGravity_settles, H1.
Qed.

(** C7 (as amended): when a measurement of a group has nothing to measure
    (its parent, the gravitation node or one of its children is not in the
    document), the pass raises a TypeError at that group and ends there: the
    document is left exactly as the groups before the failing one leave it,
    so neither the failing group nor any group after it performs a write.
    No list of errors is returned. *)
Theorem C7_failure_ends_pass o pre g post d :
  unresolved g d ->
  calcGravity o (pre ++ g :: post) d
  = (TypeError, snd (calcGravity o pre d)).
Proof.
  intros Hu. rewrite calcGravity_app.
  destruct (calcGravity o pre d) as [[pre'|] d1] eqn:Ep; [|reflexivity].
  simpl. unfold bind.
  rewrite calcGroup_unresolved; [reflexivity|].
  eapply unresolved_tags; [eapply calcGravity_tags, Ep | exact Hu].
Qed.

(** ** The claims on the sample documents *)

(** The write-back never replaces the force-derived margins: the guard of
    line 250 reads [child.height], which no child object has. *)
Lemma apply_child_margins o gd c cd d d' :
  child_data_of c = Some cd ->
  apply_child o gd c d = (Ok tt, d') ->
  forall i m, d' !! i = Some m -> matches d' (child_id c) i m = true ->
    margin_top (css m) = c_margin_top cd /\
    margin_bottom (css m) = c_margin_bottom cd.
Proof.
  intros Hcd H i m Hi Hm.
  destruct (apply_child_matched _ _ _ _ _ _ Hcd H i m Hi)
    as (m0 & _ & Hm0 & _ & Ht).
  rewrite Hm0 in Hm. destruct (Ht Hm) as (Htop & _ & Hbot & _).
  split; assumption.
Qed.

(** C1, evaluated: in [doc_overflow] the child is 100px high in a container
    150px high, so with k = 0.618 the overflow condition
    [100 + 2*(100*k) > 150] holds; after the pass its top and bottom margins
    are still the force-derived 123.6px, not [(150-100)/2 = 25]px. *)
Theorem C1_overflow_clamp_not_applied :
  exists els d' s,
    init defaults doc_overflow = (Ok els, d') /\
    style_at d' 2 = Some s /\
    150 < 100 + 2 * (100 * k defaults) /\
    margin_top s == 1236 # 10 /\
    margin_bottom s == 1236 # 10 /\
    ~ margin_top s == (150 - 100) / 2 /\
    ~ margin_bottom s == (150 - 100) / 2.
Proof.
  eexists _, _, _. split; [vm_compute; reflexivity|].
  split; [reflexivity|].
  repeat split; vm_compute; congruence.
Qed.

(** C2, instances, one for each branch: content taller than the container
    (padding 0); room for the whole pull (padding [delta.top - offset.top] =
    265); pull cut at the room left (padding [aHeight - gHeight] = 270); and
    an attractor above the container, where the value computed by the second
    branch is negative and the element keeps its padding of 0. *)
Lemma C2_padding_policy_witness :
  (exists g' d' gd n,
     calcGroup defaults (group_of "0" "0") doc_three = (Ok g', d') /\
     group_data_of g' = Some gd /\ d' !! 1%nat = Some n /\
     aHeight gd <= gHeight gd /\
     g_padding_top gd = 0 /\ padding_top (css n) = 0) /\
  (exists g' d' gd n,
     calcGroup defaults group_column (doc_column 600 10 300) = (Ok g', d') /\
     group_data_of g' = Some gd /\ d' !! 1%nat = Some n /\
     gHeight gd == 30 /\ aHeight gd == 600 /\
     g_padding_top gd == 265 /\ padding_top (css n) == 265) /\
  (exists g' d' gd n,
     calcGroup defaults group_column (doc_column 300 10 300) = (Ok g', d') /\
     group_data_of g' = Some gd /\ d' !! 1%nat = Some n /\
     gHeight gd == 30 /\ aHeight gd == 300 /\
     g_padding_top gd == 270 /\ padding_top (css n) == 270) /\
  (exists g' d' gd n,
     calcGroup defaults group_column (doc_column 600 400 0) = (Ok g', d') /\
     group_data_of g' = Some gd /\ d' !! 1%nat = Some n /\
     gHeight gd == 30 /\ aHeight gd == 600 /\
     g_padding_top gd == - (815) /\ padding_top (css n) == 0).
Proof.
  split; [|split; [|split]].
  - destruct (calcGroup defaults (group_of "0" "0") doc_three)
      as [[g'|] d'] eqn:E; [|vm_compute in E; discriminate].
    destruct (C2_padding_policy _ _ _ _ _ E)
      as (gd & pn & gn & Hgd & _ & _ & _ & _ & _ & _ & _ & H1 & _ & _ & Hw).
    vm_compute in E. injection E as <- <-.
    injection Hgd as <-.
    pose proof (H1 ltac:(vm_compute; congruence)) as Hzero.
    destruct (Hw 1%nat _ eq_refl eq_refl) as (n0 & Hn0 & Hpos & _).
    eexists _, _, _, _. split; [reflexivity|]. split; [reflexivity|].
    split; [reflexivity|]. split; [vm_compute; congruence|].
    split; [exact Hzero|].
    rewrite Hpos; [exact Hzero|]. rewrite Hzero. apply Qle_refl.
  - destruct (calcGroup defaults group_column (doc_column 600 10 300))
      as [[g'|] d'] eqn:E; [|vm_compute in E; discriminate].
    destruct (C2_padding_policy _ _ _ _ _ E)
      as (gd & pn & gn & Hgd & _ & _ & _ & _ & _ & _ & _ & _ & H2 & _ & Hw).
    vm_compute in E. injection E as <- <-.
    injection Hgd as <-.
    destruct (Hw 1%nat _ eq_refl eq_refl) as (n0 & Hn0 & Hpos & _).
    eexists _, _, _, _. split; [reflexivity|]. split; [reflexivity|].
    split; [reflexivity|]. split; [reflexivity|]. split; [reflexivity|].
    rewrite Hpos; rewrite H2; try (vm_compute; congruence).
    split; vm_compute; reflexivity.
  - destruct (calcGroup defaults group_column (doc_column 300 10 300))
      as [[g'|] d'] eqn:E; [|vm_compute in E; discriminate].
    destruct (C2_padding_policy _ _ _ _ _ E)
      as (gd & pn & gn & Hgd & _ & _ & _ & _ & _ & _ & _ & _ & _ & H3 & Hw).
    vm_compute in E. injection E as <- <-.
    injection Hgd as <-.
    destruct (Hw 1%nat _ eq_refl eq_refl) as (n0 & Hn0 & Hpos & _).
    eexists _, _, _, _. split; [reflexivity|]. split; [reflexivity|].
    split; [reflexivity|]. split; [reflexivity|]. split; [reflexivity|].
    rewrite Hpos; rewrite H3; try (vm_compute; congruence).
    split; vm_compute; reflexivity.
  - destruct (calcGroup defaults group_column (doc_column 600 400 0))
      as [[g'|] d'] eqn:E; [|vm_compute in E; discriminate].
    destruct (C2_padding_policy _ _ _ _ _ E)
      as (gd & pn & gn & Hgd & _ & _ & _ & _ & _ & _ & _ & _ & H2 & _ & Hw).
    vm_compute in E. injection E as <- <-.
    injection Hgd as <-.
    destruct (Hw 1%nat _ eq_refl eq_refl) as (n0 & Hn0 & _ & Hneg).
    injection Hn0 as <-.
    eexists _, _, _, _. split; [reflexivity|]. split; [reflexivity|].
    split; [reflexivity|]. split; [reflexivity|]. split; [reflexivity|].
    rewrite Hneg; rewrite H2; try (vm_compute; congruence).
    split; vm_compute; reflexivity.
Defined.

(** C3, as stated, fails on a fractional margin: the child of [doc_fraction]
    has a top margin of 12.5px, and the margin computed for it is
    [12/10 * force], not [12.5/10 * force]. *)
Lemma C3_counterexample :
  exists cd n,
    measure_child defaults (mkChild (SelChild "0") None) doc_fraction
      = (Ok cd, doc_fraction) /\
    first_match (SelChild "0") doc_fraction = Some n /\
    margin_top (css n) == 25 # 2 /\
    plain_px (margin_top (css n)) /\
    c_margin_top cd == 12 / density defaults * c_force cd /\
    ~ c_margin_top cd == margin_top (css n) / density defaults * c_force cd.
Proof.
  eexists _, _. split; [vm_compute; reflexivity|].
  split; [reflexivity|]. split; [vm_compute; congruence|]. split.
  - exists 125%Z, 1%nat. split; [lia|]. split; [reflexivity|].
    vm_compute; reflexivity.
  - split; vm_compute; congruence.
Qed.

Lemma C3_force_and_margins_witness :
  plain_px (25 # 2) /\ plain_px 20 /\
  exists cd,
    measure_child defaults (mkChild (SelChild "0") None) doc_fraction
      = (Ok cd, doc_fraction) /\
    ~ density defaults == 0 /\
    exists n,
      first_match (SelChild "0") doc_fraction = Some n /\
      c_height cd = outer_height (geometry n) /\
      c_force cd = c_height cd * k defaults /\
      Forall (fun '(m, computed) =>
                plain_px m ->
                computed
                = inject_Z (Z.quot (Qnum m) (Zpos (Qden m)))
                  / density defaults * c_force cd)
        [ (margin_top (css n), c_margin_top cd);
          (margin_right (css n), c_margin_right cd);
          (margin_bottom (css n), c_margin_bottom cd);
          (margin_left (css n), c_margin_left cd) ] /\
      (forall c2 d2 cd2 d2',
         measure_child defaults c2 d2 = (Ok cd2, d2') ->
         0 <= k defaults -> c_height cd <= c_height cd2 ->
         c_force cd <= c_force cd2).
Proof.
  split.
  { exists 125%Z, 1%nat. split; [lia|]. split; [reflexivity|].
    vm_compute; reflexivity. }
  split.
  { exists 20%Z, 0%nat. split; [lia|]. split; [reflexivity|].
    vm_compute; reflexivity. }
  eexists. split; [vm_compute; reflexivity|].
  split; [vm_compute; congruence|].
  apply (C3_force_and_margins defaults (mkChild (SelChild "0") None)
           doc_fraction _ doc_fraction).
  - vm_compute; reflexivity.
  - vm_compute; congruence.
Defined.

(** C4, instance: a group of three children centered at 40, 60 and 80 with
    the attractor at 100; the third child is authored 'right'. *)
Lemma C4_text_align_policy_witness :
  exists g' d',
    calcGroup defaults group_column (doc_column 600 10 300) = (Ok g', d') /\
    text_align_at d' 2 = Some "left" /\
    text_align_at d' 3 = Some "right" /\
    text_align_at d' 4 = Some "right" /\
    exists gd gn,
      group_data_of g' = Some gd /\
      first_match SelGravitationNode (doc_column 600 10 300) = Some gn /\
      apply_children defaults gd (group_children g')
        (update_all (group_parent group_column)
           (with_css (set_padding_top (g_padding_top gd)))
           (doc_column 600 10 300)) = (Ok tt, d') /\
      Forall2
        (fun c c' =>
           child_id c' = child_id c /\
           exists n0,
             first_match (child_id c) (doc_column 600 10 300) = Some n0 /\
             let G := offset_left (geometry gn) in
             let cc :=
               offset_left (geometry n0) + outer_width (geometry n0) / 2 in
             forall d1 n,
               first_match (child_id c) d1 = Some n ->
               exists d2,
                 apply_child defaults gd c' d1 = (Ok tt, d2) /\
                 (text_align (css n) = "start" ->
                  forall i m, d2 !! i = Some m ->
                    matches d2 (child_id c) i m = true ->
                    (cc < G / 2 -> text_align (css m) = "left") /\
                    (~ cc < G / 2 -> G < (3 # 2) * cc ->
                       text_align (css m) = "center") /\
                    (~ cc < G / 2 -> ~ G < (3 # 2) * cc ->
                       text_align (css m) = "right")) /\
                 (text_align (css n) <> "start" ->
                  (fun m => text_align (css m)) <$> d2
                  = (fun m => text_align (css m)) <$> d1))
        (group_children group_column) (group_children g').
Proof.
  eexists _, _. split; [vm_compute; reflexivity|].
  split; [reflexivity|]. split; [reflexivity|]. split; [reflexivity|].
  apply (C4_text_align_policy defaults group_column (doc_column 600 10 300)).
  vm_compute; reflexivity.
Defined.

(** C10, as stated, fails.  In [doc_nested] node 3 is flagged and is the
    parent of the flagged node 4: it ends as a parent (class gravity-parent)
    whose gravity-id is 1, its own index, not 0.  And on [doc_three], where
    the parent of the first flagged element already carries a gravity-id,
    [buildCache] raises a TypeError: no child reference is appended to any
    children list. *)
Lemma C10_counterexample :
  (exists st n,
     buildCache doc_nested [] = Ok st /\
     find_gravity doc_nested = [(2, 1); (3, 1); (4, 3)]%nat /\
     doc st !! 3%nat = Some n /\
     cls_gravity_parent n = true /\
     gravity_id n = Some "1" /\
     gravity_id n <> Some "0") /\
  (exists e p rest,
     find_gravity doc_three = (e, p) :: rest /\
     is_Some (attr_gravity_id doc_three p) /\
     buildCache doc_three [] = TypeError).
Proof.
  split.
  - eexists _, _. split; [vm_compute; reflexivity|].
    split; [reflexivity|]. split; [reflexivity|]. split; [reflexivity|].
    split; [reflexivity|discriminate].
  - eexists _, _, _. split; [reflexivity|].
    split; [eexists; reflexivity | vm_compute; reflexivity].
Qed.

(** C5, as stated, fails: with the attractor at 100 the child centered at 60
    is aligned right (100 < 90 is false) and the one centered at 80 is aligned
    center (100 < 120). *)
Lemma C5_counterexample :
  ~ (text_align_at (snd (init defaults doc_align)) 2 = Some "left" /\
     text_align_at (snd (init defaults doc_align)) 3 = Some "center" /\
     text_align_at (snd (init defaults doc_align)) 4 = Some "right").
Proof. vm_compute. intros (_ & H & _). discriminate H. Qed.

(** C5 (as amended): with G = 100, a start-aligned child centered at 40 is
    aligned left, one centered at 60 is aligned right and one centered at 80
    is aligned center. *)
Theorem C5_alignment_at_100 :
  (exists els d',
     init defaults doc_align = (Ok els, d') /\
     (exists g, els = [g] /\
        Forall2 (fun c x =>
                   exists cd, child_data_of c = Some cd /\
                              c_center_left cd == x)
          (group_children g) [40; 60; 80] /\
        exists gd, group_data_of g = Some gd /\ gravity_left gd == 100) /\
     text_align_at doc_align 2 = Some "start" /\
     text_align_at doc_align 3 = Some "start" /\
     text_align_at doc_align 4 = Some "start" /\
     text_align_at d' 2 = Some "left" /\
     text_align_at d' 3 = Some "right" /\
     text_align_at d' 4 = Some "center") /\
  calc_text_align 40 100 = "left" /\
  calc_text_align 60 100 = "right" /\
  calc_text_align 80 100 = "center".
Proof.
  split; [|repeat split].
  eexists _, _. split; [vm_compute; reflexivity|].
  split; [|repeat split].
  eexists. split; [reflexivity|]. split.
  - repeat constructor; eexists; (split; [reflexivity|]); reflexivity.
  - eexists. split; reflexivity.
Qed.

(** C6, as stated, fails: the second pass over [doc_overflow] reads the
    123.6px the first pass wrote, takes its integer part 123, and writes
    760.14px.  The child's height, [k] and [density], which are all the
    margin depends on besides, are the same in both passes. *)
Lemma C6_counterexample :
  exists st els1 d1 els2 d2 s1 s2,
    buildCache doc_overflow [] = Ok st /\
    calcGravity defaults (elements st) (doc st) = (Ok els1, d1) /\
    calcGravity defaults els1 d1 = (Ok els2, d2) /\
    style_at d1 2 = Some s1 /\
    style_at d2 2 = Some s2 /\
    margin_top s1 == 1236 # 10 /\
    margin_top s2 == 76014 # 100 /\
    ~ margin_top s2 == margin_top s1.
Proof.
  eexists _, _, _, _, _, _, _.
  split; [vm_compute; reflexivity|].
  split; [vm_compute; reflexivity|].
  split; [vm_compute; reflexivity|].
  split; [reflexivity|]. split; [reflexivity|].
  repeat split; vm_compute; congruence.
Qed.

Lemma C6_alignment_fixed_point_witness :
  exists els1 d1 r d2,
    calcGravity defaults [group_of "0" "0"] doc_three = (Ok els1, d1) /\
    calcGravity defaults els1 d1 = (r, d2) /\
    (fun n => text_align (css n)) <$> d2
    = (fun n => text_align (css n)) <$> d1.
Proof.
  eexists _, _, _, _.
  split; [vm_compute; reflexivity|].
  split; [vm_compute; reflexivity|].
  eapply (C6_alignment_fixed_point defaults [group_of "0" "0"] doc_three);
    vm_compute; reflexivity.
Defined.

(** C7, as stated, fails: the second of the three groups of [elements_three]
    has nothing to measure in [doc_three]; the pass ends with a TypeError,
    not with a list of errors, and the third group is not laid out: its child
    (node 4) keeps its 20px margins and its 'start' alignment while the child
    of the first group (node 2) has been written. *)
Lemma C7_counterexample :
  exists d',
    calcGravity defaults elements_three doc_three = (TypeError, d') /\
    style_at d' 4 = style_at doc_three 4 /\
    style_at doc_three 4 = Some (plain_style 20 "start") /\
    text_align_at d' 2 = Some "left".
Proof.
  eexists. split; [vm_compute; reflexivity|].
  repeat split.
Qed.

Lemma C7_failure_ends_pass_witness :
  unresolved (group_of "1" "1") doc_three /\
  calcGravity defaults
    ([group_of "0" "0"] ++ group_of "1" "1" :: [group_of "2" "2"]) doc_three
  = (TypeError, snd (calcGravity defaults [group_of "0" "0"] doc_three)).
Proof.
  split; [left; reflexivity|].
  apply (C7_failure_ends_pass defaults [group_of "0" "0"]
           (group_of "1" "1") [group_of "2" "2"] doc_three).
  left; reflexivity.
Defined.

(** C8, evaluated: in [doc_two_parents] the two distinct containers (nodes 1
    and 3) both receive the gravity-id 0, so that the selector of either
    group resolves to both of them; the two group records carry the same
    selector, and the children of the second container are listed under the
    first group while the second group has none. *)
Theorem C8_parents_share_identifier :
  exists st,
    buildCache doc_two_parents [] = Ok st /\
    find_gravity doc_two_parents = [(2, 1); (4, 3); (5, 3)]%nat /\
    attr_gravity_id (doc st) 1 = Some "0" /\
    attr_gravity_id (doc st) 3 = Some "0" /\
    (forall n, doc st !! 1%nat = Some n ->
       matches (doc st) (SelParent "0") 1 n = true) /\
    (forall n, doc st !! 3%nat = Some n ->
       matches (doc st) (SelParent "0") 3 n = true) /\
    group_parent <$> elements st = [SelParent "0"; SelParent "0"] /\
    (fun g => child_id <$> group_children g) <$> elements st
    = [[SelChild "0"; SelChild "1"; SelChild "2"]; []].
Proof.
  eexists. split; [vm_compute; reflexivity|].
  repeat split; intros n [= <-]; reflexivity.
Qed.

(** C9, as stated, fails when the content is taller than the container: in
    [doc_tall] the container is 100px high at offset 10 and its content is
    200px high; the padding is 0 and [gHeight + paddingTop] exceeds
    [aHeight]. *)
Lemma C9_counterexample :
  exists els d' g gd,
    init defaults doc_tall = (Ok els, d') /\
    els = [g] /\ group_data_of g = Some gd /\
    0 <= g_offset_top gd /\
    aHeight gd == 100 /\ gHeight gd == 200 /\ g_padding_top gd == 0 /\
    ~ gHeight gd + g_padding_top gd <= aHeight gd.
Proof.
  eexists _, _, _, _. split; [vm_compute; reflexivity|].
  split; [reflexivity|]. split; [reflexivity|].
  repeat split; vm_compute; congruence.
Qed.

Lemma C9_padding_bound_witness :
  exists g' d' pn,
    calcGroup defaults (group_of "0" "0") doc_three = (Ok g', d') /\
    first_match (SelParent "0") doc_three = Some pn /\
    0 <= offset_top (geometry pn) /\
    exists gd,
      group_data_of g' = Some gd /\
      (aHeight gd <= gHeight gd -> g_padding_top gd = 0) /\
      (gHeight gd < aHeight gd ->
         g_padding_top gd <= aHeight gd - gHeight gd) /\
      (gHeight gd <= aHeight gd ->
         gHeight gd + g_padding_top gd <= aHeight gd).
Proof.
  eexists _, _, _. split; [vm_compute; reflexivity|].
  split; [reflexivity|]. split; [vm_compute; congruence|].
  eapply (C9_padding_bound defaults (group_of "0" "0") doc_three).
  - vm_compute; reflexivity.
  - reflexivity.
  - vm_compute; congruence.
Defined.

(** * Further properties of [calcGravity] *)

(** ** When a pass completes *)

Lemma is_Some_related_tags s d d' :
  related same_tags d d' ->
  (is_Some (first_match s d) <-> is_Some (first_match s d')).
Proof.
  intros Hr.
  pose proof (first_match_related same_tags (fun _ _ H => H) d d' s Hr) as H.
  inversion H; split; intros [z Hz]; try discriminate; eauto.
Qed.

Lemma resolved_tags g d d' :
  related same_tags d d' -> (resolved g d <-> resolved g d').
Proof.
  intros Hr. unfold resolved.
  rewrite (is_Some_related_tags (group_parent g) d d' Hr).
  rewrite (is_Some_related_tags SelGravitationNode d d' Hr).
  assert (Hc : Forall (fun c => is_Some (first_match (child_id c) d))
                 (group_children g)
               <-> Forall (fun c => is_Some (first_match (child_id c) d'))
                     (group_children g)).
  { split; intros H; (eapply Forall_impl; [exact H|]); intros c;
      apply (is_Some_related_tags (child_id c) d d' Hr). }
  rewrite Hc. reflexivity.
Qed.

Lemma resolved_or_unresolved g d : resolved g d \/ unresolved g d.
Proof.
  unfold resolved, unresolved.
  destruct (first_match (group_parent g) d) as [pn|]; [|right; left; reflexivity].
  destruct (first_match SelGravitationNode d) as [gn|];
    [|right; right; left; reflexivity].
  assert (Hc : Forall (fun c => is_Some (first_match (child_id c) d))
                 (group_children g)
               \/ Exists (fun c => first_match (child_id c) d = None)
                    (group_children g)).
  { induction (group_children g) as [|c cs IH]; [left; constructor|].
    destruct (first_match (child_id c) d) as [n|] eqn:E.
    - destruct IH as [IH|IH].
      + left. constructor; [rewrite E; eauto | exact IH].
      + right. apply Exists_cons_tl, IH.
    - right. apply Exists_cons_hd, E. }
  destruct Hc as [Hc|Hc]; [left | right; right; right; exact Hc].
  repeat split; eauto.
Qed.

Lemma measure_children_resolved o cs : forall gw gh d,
  Forall (fun c => is_Some (first_match (child_id c) d)) cs ->
  exists r gw' gh',
    measure_children o cs gw gh d = (Ok (r, gw', gh'), d) /\
    Forall (fun c => is_Some (child_data_of c)) r.
Proof.
  induction cs as [|c cs IH]; intros gw gh d Hall; simpl.
  - exists [], gw, gh. split; [reflexivity|constructor].
  - inversion Hall as [|? ? [n Hn] Hcs]; subst.
    unfold measure_child, first_node, bind. rewrite Hn. simpl.
    match goal with
    | |- context [measure_children o cs ?a ?b d] =>
        destruct (IH a b d Hcs) as (r & gw' & gh' & -> & Hr)
    end. simpl.
    eexists _, _, _. split; [reflexivity|].
    constructor; [simpl; eauto | exact Hr].
Qed.

Lemma apply_children_total o gd cs : forall d,
  Forall (fun c => is_Some (child_data_of c)) cs ->
  exists d', apply_children o gd cs d = (Ok tt, d').
Proof.
  induction cs as [|c cs IH]; intros d Hall; simpl.
  - eexists; reflexivity.
  - inversion Hall as [|? ? [cd Hcd] Hcs]; subst.
    unfold bind. rewrite apply_child_eq, Hcd. apply IH, Hcs.
Qed.

Lemma calcGroup_resolved o g d :
  resolved g d -> exists g' d', calcGroup o g d = (Ok g', d').
Proof.
  intros ([pn Hp] & [gn Hg] & Hc).
  destruct (measure_children_resolved o _ 0 0 d Hc)
    as (r & gw & gh & Hm & Hr).
  unfold calcGroup, measure_group, first_node, bind.
  rewrite Hp. simpl. rewrite Hg. simpl. rewrite Hm. simpl.
  unfold css_set.
  match goal with
  | |- context [apply_children o ?gd r ?d0] =>
      destruct (apply_children_total o gd r d0 Hr) as [d' ->]
  end.
  eexists _, _. reflexivity.
Qed.

Lemma calcGroup_tags o g d r d' :
  calcGroup o g d = (r, d') -> related same_tags d d'.
Proof.
  apply (preserves_calcGroup same_tags same_tags_refl same_tags_trans);
    intros; apply same_tags_with_css.
Qed.

Lemma calcGravity_all_resolved o els : forall d,
  Forall (fun g => resolved g d) els ->
  exists els' d', calcGravity o els d = (Ok els', d').
Proof.
  induction els as [|g els IH]; intros d Hall; simpl.
  - eexists _, _; reflexivity.
  - inversion Hall as [|? ? Hg Hrest]; subst. unfold bind, ret.
    destruct (calcGroup_resolved o g d Hg) as (g' & d1 & Eg).
    rewrite Eg. pose proof (calcGroup_tags _ _ _ _ _ Eg) as Ht.
    assert (Hrest1 : Forall (fun g0 => resolved g0 d1) els).
    { eapply Forall_impl; [exact Hrest|].
      intros g0. apply (resolved_tags g0 d d1 Ht). }
    destruct (IH d1 Hrest1) as (r & d2 & ->).
    eexists _, _. reflexivity.
Qed.

(** X1: a pass completes exactly when every group of the list has its
    parent, the gravitation node and each of its children in the document;
    any other pass ends with a TypeError. *)
Theorem calcGravity_completes_iff_resolved o els d :
  (exists els' d', calcGravity o els d = (Ok els', d')) <->
  Forall (fun g => resolved g d) els.
Proof.
  revert d. induction els as [|g els IH]; intros d; simpl.
  - split; [constructor | eexists _, _; reflexivity].
  - unfold bind, ret. split.
    + intros (els' & d' & H).
      destruct (calcGroup o g d) as [[g'|] d1] eqn:Eg; [|discriminate].
      destruct (calcGravity o els d1) as [[r|] d2] eqn:Er; [|discriminate].
      pose proof (calcGroup_tags _ _ _ _ _ Eg) as Ht.
      constructor.
      * destruct (resolved_or_unresolved g d) as [Hr|Hu]; [exact Hr|].
        rewrite (calcGroup_unresolved _ _ _ Hu) in Eg. discriminate.
      * assert (Hrest : Forall (fun g0 => resolved g0 d1) els).
        { apply IH. eexists _, _. exact Er. }
        eapply Forall_impl; [exact Hrest|].
        intros g0. apply (resolved_tags g0 d d1 Ht).
    + intros Hall. inversion Hall as [|? ? Hg Hrest]; subst.
      destruct (calcGroup_resolved o g d Hg) as (g' & d1 & Eg).
      rewrite Eg. pose proof (calcGroup_tags _ _ _ _ _ Eg) as Ht.
      assert (Hrest1 : Forall (fun g0 => resolved g0 d1) els).
      { eapply Forall_impl; [exact Hrest|].
        intros g0. apply (resolved_tags g0 d d1 Ht). }
      apply IH in Hrest1. destruct Hrest1 as (r & d2 & ->).
      eexists _, _. reflexivity.
Qed.

(** ** What a completed pass leaves on the records *)

Lemma measure_children_measured o cs : forall gw gh d r gw' gh' d',
  measure_children o cs gw gh d = (Ok (r, gw', gh'), d') ->
  Forall2 child_measured cs r /\
  gw' == gw + sum_extents child_extent_h r /\
  gh' == gh + sum_extents child_extent_v r.
Proof.
  induction cs as [|c cs IH]; intros gw gh d r gw' gh' d'; simpl.
  - intros [= <- <- <- _]. split; [constructor|]. simpl. split; ring.
  - unfold measure_child, first_node, bind.
    destruct (first_match (child_id c) d) as [n|]; simpl; [|discriminate].
    match goal with
    | |- context [measure_children o cs ?a ?b d] =>
        destruct (measure_children o cs a b d)
          as [[[[r0 gw0] gh0]|] d0] eqn:E; simpl; [|discriminate]
    end.
    intros [= <- <- <- _].
    destruct (IH _ _ _ _ _ _ _ E) as (Hm & Hw & Hh).
    split; [constructor; [split; simpl; eauto | exact Hm]|].
    simpl. unfold child_extent_h at 1, child_extent_v at 1. simpl.
    rewrite Hw, Hh. split; ring.
Qed.

Lemma calcGroup_measured o g d g' d' :
  calcGroup o g d = (Ok g', d') ->
  group_measured g g' /\
  exists gd, group_data_of g' = Some gd /\
    gWidth gd == sum_extents child_extent_h (group_children g') /\
    gHeight gd == sum_extents child_extent_v (group_children g') /\
    g_center_top gd = g_offset_top gd + gHeight gd / 2 /\
    g_center_left gd = g_offset_left gd + gWidth gd / 2.
Proof.
  intros H. destruct (calcGroup_ok _ _ _ _ _ H) as (cs & gd & Hm & -> & _).
  revert Hm. unfold measure_group, first_node, bind.
  destruct (first_match (group_parent g) d) as [pn|]; simpl; [|discriminate].
  destruct (first_match SelGravitationNode d) as [gn|]; simpl; [|discriminate].
  destruct (measure_children o (group_children g) 0 0 d)
    as [[[[r gw] gh]|] d0] eqn:E; simpl; [|discriminate].
  intros [= <- <-].
  destruct (measure_children_measured _ _ _ _ _ _ _ _ _ E) as (Hc & Hw & Hh).
  split.
  - split; [reflexivity|]. split; [simpl; eauto | exact Hc].
  - eexists. split; [reflexivity|]. simpl.
    split; [rewrite Hw; ring|]. split; [rewrite Hh; ring|].
    split; reflexivity.
Qed.

(** X2: a completed pass returns the groups it was given, in the same order
    and with the same children in the same order: each keeps its selector,
    and every group and every child has its data filled in. *)
Theorem calcGravity_keeps_records o els d els' d' :
  calcGravity o els d = (Ok els', d') ->
  Forall2 group_measured els els'.
Proof.
  revert d els' d'. induction els as [|g els IH]; intros d els' d'; simpl.
  - intros [= <- _]. constructor.
  - unfold bind, ret.
    destruct (calcGroup o g d) as [[g'|] d1] eqn:Eg; [|discriminate].
    destruct (calcGravity o els d1) as [[r|] d2] eqn:Er; [|discriminate].
    intros [= <- _]. constructor; [|eapply IH, Er].
    apply (calcGroup_measured _ _ _ _ _ Eg).
Qed.

(** X3: for every processed group, [gWidth] and [gHeight] are the sums, over
    its children, of left margin + width + right margin and of top margin +
    height + bottom margin, the margins being the computed ones; the group's
    center is its offset plus half of these.  A group without children has
    [gWidth = gHeight = 0]. *)
Theorem calcGroup_content_box o g d g' d' :
  calcGroup o g d = (Ok g', d') ->
  exists gd, group_data_of g' = Some gd /\
    gWidth gd == sum_extents child_extent_h (group_children g') /\
    gHeight gd == sum_extents child_extent_v (group_children g') /\
    g_center_top gd = g_offset_top gd + gHeight gd / 2 /\
    g_center_left gd = g_offset_left gd + gWidth gd / 2 /\
    (group_children g = [] -> gWidth gd == 0 /\ gHeight gd == 0).
Proof.
  intros H.
  destruct (calcGroup_measured _ _ _ _ _ H)
    as ((_ & _ & Hc) & gd & Hgd & Hw & Hh & Hct & Hcl).
  exists gd. repeat (split; [assumption|]).
  intros Hnil. rewrite Hnil in Hc. apply Forall2_nil_inv_l in Hc.
  rewrite Hc in Hw, Hh. simpl in Hw, Hh. split; assumption.
Qed.

(** ** What a pass writes, and where *)

Lemma calcGravity_resolved_before o els : forall d els' d',
  calcGravity o els d = (Ok els', d') -> Forall (fun g => resolved g d) els.
Proof.
  induction els as [|g els IH]; intros d els' d'; simpl.
  - constructor.
  - unfold bind, ret.
    destruct (calcGroup o g d) as [[g'|] d1] eqn:Eg; [|discriminate].
    destruct (calcGravity o els d1) as [[r|] d2] eqn:Er; [|discriminate].
    intros _. pose proof (calcGroup_tags _ _ _ _ _ Eg) as Ht.
    constructor.
    + destruct (resolved_or_unresolved g d) as [Hr|Hu]; [exact Hr|].
      rewrite (calcGroup_unresolved _ _ _ Hu) in Eg. discriminate.
    + eapply Forall_impl; [eapply IH, Er|].
      intros g0. apply (resolved_tags g0 d d1 Ht).
Qed.

Lemma calcGravity_selectors o els : forall d els' d',
  calcGravity o els d = (Ok els', d') -> Forall2 same_selectors els els'.
Proof.
  induction els as [|g els IH]; intros d els' d'; simpl.
  - intros [= <- _]. constructor.
  - unfold bind, ret.
    destruct (calcGroup o g d) as [[g'|] d1] eqn:Eg; [|discriminate].
    destruct (calcGravity o els d1) as [[r|] d2] eqn:Er; [|discriminate].
    intros [= <- _]. constructor; [|eapply IH, Er].
    destruct (calcGroup_shape _ _ _ _ _ Eg) as [Hp Hc].
    split; [symmetry; exact Hp | symmetry; exact Hc].
Qed.

Lemma resolved_same_selectors g g' d :
  same_selectors g g' -> resolved g d -> resolved g' d.
Proof.
  intros [Hp Hc] (H1 & H2 & H3). unfold resolved. rewrite <- Hp.
  split; [exact H1|]. split; [exact H2|].
  apply (Forall_fmap child_id (fun s => is_Some (first_match s d))).
  rewrite <- Hc. apply Forall_fmap. exact H3.
Qed.

(** X4: a pass, whatever its outcome, changes no class, no gravity-id and no
    parent link, so that every selector resolves to the same elements after
    it as before; hence, once a pass has completed, another pass over the
    records it returned, with any [k] and [density], completes as well. *)
Theorem calcGravity_keeps_selectors o els d r d' :
  calcGravity o els d = (r, d') ->
  Forall2 same_marks d d' /\
  (forall s i n n',
     d !! i = Some n -> d' !! i = Some n' ->
     matches d' s i n' = matches d s i n) /\
  (forall els' o',
     r = Ok els' ->
     exists els'' d'', calcGravity o' els' d' = (Ok els'', d'')).
Proof.
  intros E. pose proof (calcGravity_tags _ _ _ _ _ E) as Ht.
  split; [|split].
  - eapply Forall2_impl; [exact Ht|].
    intros n n' (H1 & H2 & H3 & H4 & H5 & H6 & _). repeat split; assumption.
  - intros s i n n' Hi Hi'.
    apply (matches_related same_tags (fun _ _ H => H)).
    + apply (related_root_init same_tags (fun _ _ H => H)), Ht.
    + eapply Forall2_lookup_lr; eauto.
  - intros els' o' ->. apply calcGravity_all_resolved.
    pose proof (calcGravity_resolved_before _ _ _ _ _ E) as Hres.
    pose proof (calcGravity_selectors _ _ _ _ _ E) as Hsel.
    clear E. induction Hsel as [|g g' l l' Hg _ IH]; [constructor|].
    inversion Hres as [|? ? Hr Hrest]; subst.
    constructor; [|apply IH, Hrest].
    eapply resolved_same_selectors; [exact Hg|].
    apply (resolved_tags g d d' Ht), Hr.
Qed.

(** X5: the write-back of a measured child always completes; it leaves the
    four force-derived margins on every element the child's selector
    resolves to, whatever the height of the container (the override of lines
    250-256 never runs), and it changes no element's padding. *)
Theorem apply_child_writes_force_margins o gd c cd d :
  child_data_of c = Some cd ->
  exists d',
    apply_child o gd c d = (Ok tt, d') /\
    (forall i m, d' !! i = Some m -> matches d' (child_id c) i m = true ->
       margin_top (css m) = c_margin_top cd /\
       margin_right (css m) = c_margin_right cd /\
       margin_bottom (css m) = c_margin_bottom cd /\
       margin_left (css m) = c_margin_left cd) /\
    (forall i m0 m, d !! i = Some m0 -> d' !! i = Some m ->
       padding_top (css m) = padding_top (css m0)).
Proof.
  intros Hcd. destruct (apply_child o gd c d) as [r d'] eqn:E.
  assert (Hr : r = Ok tt).
  { rewrite apply_child_eq, Hcd in E. congruence. }
  subst r. exists d'. split; [reflexivity|]. split.
  - intros i m Hi Hm.
    destruct (apply_child_matched _ _ _ _ _ _ Hcd E i m Hi)
      as (m0 & _ & Hm0 & _ & Ht).
    rewrite Hm0 in Hm. destruct (Ht Hm) as (H1 & H2 & H3 & H4 & _).
    repeat split; assumption.
  - intros i m0 m Hi0 Hi.
    assert (Hp : related pad_keep d d').
    { eapply (preserves_apply_child pad_keep pad_keep_refl pad_keep_trans);
        [..|exact E];
        intros; (split; [apply same_tags_with_css | reflexivity]). }
    destruct (Forall2_lookup_lr _ _ _ _ _ _ Hp Hi0 Hi) as [_ H]. exact H.
Qed.

Lemma ta_written_refl n : ta_written n n.
Proof. split; [apply same_tags_refl | left; reflexivity]. Qed.

Lemma ta_written_trans n1 n2 n3 :
  ta_written n1 n2 -> ta_written n2 n3 -> ta_written n1 n3.
Proof.
  intros [T12 H12] [T23 H23]. split; [eapply same_tags_trans; eauto|].
  destruct H23 as [E|H]; [rewrite E; exact H12 | right; exact H].
Qed.

Lemma calc_text_align_values c g :
  calc_text_align c g = "left" \/ calc_text_align c g = "center" \/
  calc_text_align c g = "right".
Proof.
  unfold calc_text_align. destruct (Qltb c (g / 2)); [auto|].
  destruct (Qltb g (c * 3 / 2)); auto.
Qed.

Lemma calcGravity_ta_written o els d r d' :
  calcGravity o els d = (r, d') -> related ta_written d d'.
Proof.
  apply (preserves_calcGravity ta_written ta_written_refl ta_written_trans);
    intros; (split; [apply same_tags_with_css|]); padding_cases;
    try (left; reflexivity).
  right. apply calc_text_align_values.
Qed.

(** X6: after a pass, every element has the text alignment it had before or
    one of 'left', 'center', 'right'; and when the pass completes, the
    element that the selector of any child of any group resolves to does not
    read 'start'. *)
Theorem calcGravity_alignment_after o els d r d' :
  calcGravity o els d = (r, d') ->
  (forall i n n', d !! i = Some n -> d' !! i = Some n' ->
     text_align (css n') = text_align (css n) \/
     text_align (css n') = "left" \/
     text_align (css n') = "center" \/
     text_align (css n') = "right") /\
  (forall els', r = Ok els' ->
     forall g c n, g ∈ els' -> c ∈ group_children g ->
       first_match (child_id c) d' = Some n ->
       text_align (css n) <> "start").
Proof.
  intros H. split.
  - intros i n n' Hi Hi'.
    pose proof (calcGravity_ta_written _ _ _ _ _ H) as Hr.
    destruct (Forall2_lookup_lr _ _ _ _ _ _ Hr Hi Hi') as [_ Ht]. exact Ht.
  - intros els' -> g c n Hg Hc Hn.
    pose proof (calcGravity_settles _ _ _ _ _ H) as Hs.
    pose proof (proj1 (Forall_forall _ _) Hs g Hg) as Hgs.
    exact (proj1 (Forall_forall _ _) Hgs c Hc n Hn).
Qed.

(** ** The margins read by [parseInt] *)

Lemma parseInt_px_whole q z : q == inject_Z z -> parseInt_px q == q.
Proof.
  unfold parseInt_px, Qeq. simpl. rewrite !Z.mul_1_r. intros H.
  rewrite H, Z.quot_mul by discriminate. reflexivity.
Qed.

Lemma parseInt_px_nonneg q :
  0 <= q -> 0 <= parseInt_px q /\ parseInt_px q <= q /\ q < parseInt_px q + 1.
Proof.
  destruct q as [n dn]. unfold parseInt_px, Qle, Qlt. simpl.
  rewrite !Z.mul_1_r. intros Hn.
  rewrite Z.quot_div_nonneg by lia.
  pose proof (Z.mul_div_le n (Zpos dn) ltac:(lia)) as H1.
  pose proof (Z.mul_succ_div_gt n (Zpos dn) ltac:(lia)) as H2.
  pose proof (Z.div_pos n (Zpos dn) Hn ltac:(lia)) as H3.
  repeat split; lia.
Qed.

Lemma scaled_margin_whole m z dens f :
  m == inject_Z z -> parseInt_px m / dens * f == m / dens * f.
Proof. intros H. rewrite (parseInt_px_whole m z H). reflexivity. Qed.

Lemma scaled_margin_bounds m dens f :
  0 <= m -> 0 < dens -> 0 <= f ->
  0 <= parseInt_px m / dens * f /\
  parseInt_px m / dens * f <= m / dens * f /\
  m / dens * f - f / dens <= parseInt_px m / dens * f.
Proof.
  intros Hm Hd Hf.
  destruct (parseInt_px_nonneg m Hm) as (H0 & H1 & H2).
  set (t := parseInt_px m) in *.
  assert (Hw : 0 <= f / dens).
  { apply Qle_shift_div_l; [exact Hd|]. lra. }
  assert (E1 : t / dens * f == t * (f / dens)) by (field; lra).
  assert (E2 : m / dens * f == m * (f / dens)) by (field; lra).
  rewrite E1, E2. set (w := f / dens) in *.
  repeat split; nra.
Qed.

(** X7: with [density <> 0], when the current margin of a side is a whole
    number of pixels of less than seven digits (which [css()] reports digit
    by digit), the margin computed for that side is exactly
    (margin / density) * force. *)
Theorem measure_child_whole_pixel_margins o c d cd d' n :
  measure_child o c d = (Ok cd, d') ->
  first_match (child_id c) d = Some n ->
  ~ density o == 0 ->
  Forall (fun '(m, computed) =>
            forall z, m == inject_Z z -> (Z.abs z < 1000000)%Z ->
                      computed == m / density o * c_force cd)
    [ (margin_top (css n), c_margin_top cd);
      (margin_right (css n), c_margin_right cd);
      (margin_bottom (css n), c_margin_bottom cd);
      (margin_left (css n), c_margin_left cd) ].
Proof.
  intros H Hn _.
  destruct (measure_child_ok _ _ _ _ _ H)
    as (n' & Hn' & _ & _ & _ & _ & _ & Ht & Hr & Hb & Hl).
  rewrite Hn in Hn'. injection Hn' as <-.
  four_sides; intros z Hz _;
    [rewrite Ht | rewrite Hr | rewrite Hb | rewrite Hl];
    eapply scaled_margin_whole; exact Hz.
Qed.

(** X8: for a child with a non-negative height, with [k >= 0] and
    [density > 0], a side whose current margin is non-negative and reported
    by [css()] in full and in decimal notation gets a computed margin that
    is non-negative, at most (margin / density) * force, and less than it by
    at most force / density (the part [parseInt] cuts off is under one
    pixel). *)
Theorem measure_child_margin_bounds o c d cd d' n :
  measure_child o c d = (Ok cd, d') ->
  first_match (child_id c) d = Some n ->
  0 <= k o -> 0 < density o -> 0 <= outer_height (geometry n) ->
  Forall (fun '(m, computed) =>
            0 <= m -> plain_px m ->
            0 <= computed /\
            computed <= m / density o * c_force cd /\
            m / density o * c_force cd - c_force cd / density o <= computed)
    [ (margin_top (css n), c_margin_top cd);
      (margin_right (css n), c_margin_right cd);
      (margin_bottom (css n), c_margin_bottom cd);
      (margin_left (css n), c_margin_left cd) ].
Proof.
  intros H Hn Hk Hd Hh.
  destruct (measure_child_ok _ _ _ _ _ H)
    as (n' & Hn' & _ & _ & Hhe & Hf & _ & Ht & Hr & Hb & Hl).
  rewrite Hn in Hn'. injection Hn' as <-.
  assert (Hforce : 0 <= c_force cd).
  { rewrite Hf, Hhe. apply Qmult_le_0_compat; assumption. }
  four_sides; intros Hm _;
    [rewrite Ht | rewrite Hr | rewrite Hb | rewrite Hl];
    apply scaled_margin_bounds; assumption.
Qed.

(** ** The padding that stays *)

(** X9: after a completed pass, the padding found on the elements that the
    parent selector of the last group resolves to is the one computed for
    that last group, whatever the earlier groups wrote there, unless it is
    negative: then these elements have the padding the earlier groups left.
    When the last group has no children, its content height is 0 and its
    padding is the policy value for a content height of 0 and the container
    height and offsets recorded for it. *)
Theorem calcGravity_last_padding_wins o pre g d els' d' :
  calcGravity o (pre ++ [g]) d = (Ok els', d') ->
  exists pre' g' gd,
    els' = pre' ++ [g'] /\
    group_data_of g' = Some gd /\
    (forall i n, d' !! i = Some n ->
       matches d' (group_parent g) i n = true ->
       exists n1, snd (calcGravity o pre d) !! i = Some n1 /\
         (0 <= g_padding_top gd -> padding_top (css n) = g_padding_top gd) /\
         (g_padding_top gd < 0 ->
            padding_top (css n) = padding_top (css n1))) /\
    (group_children g = [] ->
     gHeight gd = 0 /\
     g_padding_top gd
     = calc_padding_top 0 (aHeight gd)
         (gravity_top gd - (g_offset_top gd + 0 / 2)) (g_offset_top gd)).
Proof.
  rewrite calcGravity_app.
  destruct (calcGravity o pre d) as [[pre'|] d1] eqn:Ep; [|discriminate].
  simpl. unfold bind, ret.
  destruct (calcGroup o g d1) as [[g'|] d2] eqn:Eg; [|discriminate].
  intros [= <- <-].
  destruct (calcGroup_ok _ _ _ _ _ Eg) as (cs & gd & Hm & -> & Ha).
  exists pre', (mkGroup (group_parent g) cs (Some gd)), gd.
  split; [reflexivity|]. split; [reflexivity|]. split.
  - eapply calcGroup_padding_written, Ha.
  - intros Hnil.
    destruct (measure_group_ok _ _ _ _ _ _ Hm)
      as (pn & gn & _ & _ & Hc & _ & _ & _ & _ & Hpad).
    rewrite Hnil in Hc. simpl in Hc. injection Hc as _ _ Hgh.
    rewrite <- Hgh in Hpad. split; [symmetry; exact Hgh | exact Hpad].
Qed.

(** * Further properties of [buildCache] *)

(** ** The flagged elements *)

Lemma find_from_ge i l e p : (e, p) ∈ find_from i l -> (i <= e)%nat.
Proof.
  revert i. induction l as [|n l IH]; intros i; simpl.
  - intros H. inversion H.
  - destruct (cls_gravity n).
    + intros H. apply elem_of_cons in H. destruct H as [[= -> _]|H]; [lia|].
      apply IH in H. lia.
    + intros H. apply IH in H. lia.
Qed.

Lemma find_from_NoDup i l : NoDup (fst <$> find_from i l).
Proof.
  revert i. induction l as [|n l IH]; intros i; simpl.
  - constructor.
  - destruct (cls_gravity n); [|apply IH].
    rewrite fmap_cons. apply NoDup_cons. split; [|apply IH].
    intros H. apply list_elem_of_fmap in H. destruct H as ([e p] & He & Hin).
    simpl in He. subst e. apply find_from_ge in Hin. lia.
Qed.

Lemma find_from_lookup i l k e p :
  find_from i l !! k = Some (e, p) ->
  exists n, l !! (e - i)%nat = Some n /\ (i <= e)%nat /\
            cls_gravity n = true /\ p = parent_of n.
Proof.
  revert i k. induction l as [|n l IH]; intros i k; simpl.
  - discriminate.
  - destruct (cls_gravity n) eqn:En.
    + destruct k as [|k]; simpl.
      * intros [= <- <-]. exists n. rewrite Nat.sub_diag. auto.
      * intros H. destruct (IH _ _ H) as (m & Hm & Hle & Hc & Hp).
        exists m. replace (e - i)%nat with (S (e - S i)) by lia. auto with lia.
    + intros H. destruct (IH _ _ H) as (m & Hm & Hle & Hc & Hp).
      exists m. replace (e - i)%nat with (S (e - S i)) by lia. auto with lia.
Qed.

Lemma find_from_complete i l j n :
  l !! j = Some n -> cls_gravity n = true ->
  exists k, find_from i l !! k = Some ((i + j)%nat, parent_of n).
Proof.
  revert i j. induction l as [|m l IH]; intros i j; simpl.
  - discriminate.
  - destruct j as [|j]; simpl.
    + intros [= ->] Hc. rewrite Hc. exists 0%nat. rewrite Nat.add_0_r.
      reflexivity.
    + intros Hj Hc. destruct (IH (S i) j Hj Hc) as [k Hk].
      replace (i + S j)%nat with (S i + j)%nat by lia.
      destruct (cls_gravity m); [exists (S k) | exists k]; exact Hk.
Qed.

Lemma find_gravity_lookup d k e p :
  find_gravity d !! k = Some (e, p) ->
  exists n, d !! e = Some n /\ (1 <= e)%nat /\
            cls_gravity n = true /\ p = parent_of n.
Proof.
  destruct d as [|r l]; simpl; [discriminate|]. intros H.
  destruct (find_from_lookup _ _ _ _ _ H) as (n & Hn & Hle & Hc & Hp).
  exists n. destruct e as [|e]; [lia|]. simpl.
  replace (S e - 1)%nat with e in Hn by lia. auto.
Qed.

Lemma find_gravity_complete d i n :
  d !! i = Some n -> (1 <= i)%nat -> cls_gravity n = true ->
  exists k, find_gravity d !! k = Some (i, parent_of n).
Proof.
  destruct d as [|r l]; simpl; [discriminate|].
  destruct i as [|i]; [lia|]. simpl. intros Hi _ Hc.
  apply (find_from_complete 1 l i n Hi Hc).
Qed.

Lemma find_gravity_NoDup d : NoDup (fst <$> find_gravity d).
Proof. destruct d; [constructor | apply find_from_NoDup]. Qed.

(** ** What the loop adds to the nodes *)

Lemma tags_grow_refl n : tags_grow n n.
Proof. repeat split; auto. Qed.

Lemma tags_grow_trans n1 n2 n3 :
  tags_grow n1 n2 -> tags_grow n2 n3 -> tags_grow n1 n3.
Proof.
  unfold tags_grow. intros (?&?&?&?&?&?&?&?) (?&?&?&?&?&?&?&?).
  repeat split; try congruence; auto.
Qed.

Lemma alter_tags_grow f i (d : dom) :
  (forall n, tags_grow n (f n)) -> Forall2 tags_grow d (alter f i d).
Proof.
  intros Hf. apply Forall2_alter_r.
  - apply Forall_Forall2_diag, Forall_forall. intros; apply tags_grow_refl.
  - intros x y _ _ Hxy. eapply tags_grow_trans; [exact Hxy | apply Hf].
Qed.

Lemma tags_grow_add_parent n : tags_grow n (add_gravity_parent n).
Proof. repeat split; auto. Qed.

Lemma tags_grow_add_init n : tags_grow n (add_gravity_init n).
Proof. repeat split; auto. Qed.

Lemma tags_grow_set_id v n : tags_grow n (set_gravity_id v n).
Proof. repeat split; simpl; eauto. Qed.

Lemma Forall2_tags_grow_trans (d1 d2 d3 : dom) :
  Forall2 tags_grow d1 d2 -> Forall2 tags_grow d2 d3 ->
  Forall2 tags_grow d1 d3.
Proof. apply (related_trans tags_grow tags_grow_trans). Qed.

Lemma buildCache_each_grow index e p st st' :
  buildCache_each index e p st = Ok st' ->
  Forall2 tags_grow (doc st) (doc st').
Proof.
  unfold buildCache_each.
  set (d2 := alter (set_gravity_id (pretty index)) e
               (alter add_gravity_parent p (doc st))).
  assert (H2 : Forall2 tags_grow (doc st) d2).
  { eapply Forall2_tags_grow_trans;
      [apply alter_tags_grow, tags_grow_add_parent
      |apply alter_tags_grow, tags_grow_set_id]. }
  destruct (attr_gravity_id d2 p); simpl.
  - destruct (elements st !! parents st); [|discriminate].
    intros [= <-]. exact H2.
  - match goal with
    | |- context [?l !! ?i] => destruct (l !! i); [|discriminate]
    end.
    intros [= <-]. simpl.
    eapply Forall2_tags_grow_trans;
      [exact H2 | apply alter_tags_grow, tags_grow_set_id].
Qed.

Lemma buildCache_loop_grow found : forall index st st',
  buildCache_loop index found st = Ok st' ->
  Forall2 tags_grow (doc st) (doc st').
Proof.
  induction found as [|[e p] rest IH]; intros index st st'; simpl.
  - intros [= <-]. apply (related_refl tags_grow tags_grow_refl).
  - destruct (buildCache_each index e p st) as [st1|] eqn:E1; [|discriminate].
    intros H. eapply Forall2_tags_grow_trans;
      [eapply buildCache_each_grow, E1 | eapply IH, H].
Qed.

Lemma buildCache_grow d els st :
  buildCache d els = Ok st -> Forall2 tags_grow d (doc st).
Proof.
  unfold buildCache. intros H.
  eapply Forall2_tags_grow_trans;
    [apply alter_tags_grow, tags_grow_add_init|].
  apply (buildCache_loop_grow _ _ _ _ H).
Qed.

Lemma find_from_grow i (l l' : list node) :
  Forall2 tags_grow l l' -> find_from i l' = find_from i l.
Proof.
  intros H. revert i. induction H as [|n n' l l' Hn _ IH]; intros i; simpl.
  - reflexivity.
  - destruct Hn as (Hp & Hc & _). rewrite Hp, Hc, IH. reflexivity.
Qed.

Lemma find_gravity_grow (d d' : dom) :
  Forall2 tags_grow d d' -> find_gravity d' = find_gravity d.
Proof.
  intros [|n n' l l' _ H]; [reflexivity|]. simpl. apply find_from_grow, H.
Qed.

(** ** The ids of the flagged elements *)

(** After its own iteration a flagged element carries its index. *)
Lemma buildCache_each_own index e p st st' :
  (e < length (doc st))%nat ->
  buildCache_each index e p st = Ok st' ->
  attr_gravity_id (doc st') e = Some (pretty index).
Proof.
  intros Hlt. unfold buildCache_each.
  set (d1 := alter add_gravity_parent p (doc st)).
  set (d2 := alter (set_gravity_id (pretty index)) e d1).
  assert (H2 : attr_gravity_id d2 e = Some (pretty index)).
  { apply attr_alter_id_eq. unfold d1. rewrite length_alter. exact Hlt. }
  destruct (attr_gravity_id d2 p) as [w|] eqn:Ep; simpl.
  - destruct (elements st !! parents st); [|discriminate].
    intros [= <-]. exact H2.
  - match goal with
    | |- context [?l !! ?i] => destruct (l !! i); [|discriminate]
    end.
    intros [= <-]. simpl.
    destruct (decide (p = e)) as [->|Hne]; [congruence|].
    rewrite attr_alter_id_ne by exact Hne. exact H2.
Qed.

(** An id, once there, is not touched by the iterations for other
    elements. *)
Lemma buildCache_loop_keeps_id found : forall index st st' i v,
  parents st = 0%nat ->
  buildCache_loop index found st = Ok st' ->
  i ∉ (fst <$> found) ->
  attr_gravity_id (doc st) i = Some v ->
  attr_gravity_id (doc st') i = Some v.
Proof.
  induction found as [|[e p] rest IH]; intros index st st' i v Hp; simpl.
  - intros [= <-] _ H. exact H.
  - destruct (buildCache_each index e p st) as [st1|] eqn:E1; [|discriminate].
    intros H Hnot Hi. apply not_elem_of_cons in Hnot.
    destruct Hnot as [Hne Hnot]. simpl in Hne.
    destruct (buildCache_each_zero _ _ _ _ _ Hp E1) as (Hp1 & _ & _ & Hattr).
    specialize (Hattr i Hne). rewrite Hi in Hattr.
    apply (IH _ _ _ i v Hp1 H Hnot Hattr).
Qed.

Lemma buildCache_loop_own found : forall index st st' j e p,
  parents st = 0%nat ->
  buildCache_loop index found st = Ok st' ->
  NoDup (fst <$> found) ->
  (forall e' p', (e', p') ∈ found -> (e' < length (doc st))%nat) ->
  found !! j = Some (e, p) ->
  attr_gravity_id (doc st') e = Some (pretty (index + j)%nat).
Proof.
  induction found as [|[e0 p0] rest IH]; intros index st st' j e p Hp; simpl.
  - intros _ _ _ H. discriminate.
  - destruct (buildCache_each index e0 p0 st) as [st1|] eqn:E1;
      [|discriminate].
    intros H Hnd Hlen Hj. apply NoDup_cons in Hnd. destruct Hnd as [Hnot Hnd].
    destruct (buildCache_each_zero _ _ _ _ _ Hp E1) as (Hp1 & Hl1 & _).
    destruct j as [|j]; simpl in Hj.
    + injection Hj as -> ->. rewrite Nat.add_0_r.
      apply (buildCache_loop_keeps_id _ _ _ _ e _ Hp1 H Hnot).
      eapply buildCache_each_own; [|exact E1]. apply (Hlen e p). left.
    + replace (index + S j)%nat with (S index + j)%nat by lia.
      apply (IH _ _ _ j e p Hp1 H Hnd); [|exact Hj].
      intros e' p' Hin. rewrite Hl1. apply (Hlen e' p'). right. exact Hin.
Qed.

Lemma find_gravity_in_range d e p :
  (e, p) ∈ find_gravity d -> (e < length d)%nat.
Proof.
  intros H. apply list_elem_of_lookup_1 in H. destruct H as [k Hk].
  destruct (find_gravity_lookup _ _ _ _ Hk) as (n & Hn & _).
  eapply lookup_lt_Some, Hn.
Qed.

Lemma buildCache_own d els st k e p :
  buildCache d els = Ok st ->
  find_gravity d !! k = Some (e, p) ->
  attr_gravity_id (doc st) e = Some (pretty k).
Proof.
  unfold buildCache. rewrite find_gravity_init. intros H Hk.
  apply (buildCache_loop_own _ _
           (mkCache (alter add_gravity_init 0%nat d) els 0) _ k e p
           eq_refl H (find_gravity_NoDup d)); [|exact Hk].
  intros e' p' Hin. simpl. rewrite length_alter.
  eapply find_gravity_in_range, Hin.
Qed.

(** X10: the child selector built for the [k]-th flagged element resolves to
    that element, and to no other element apart possibly from the element
    the plugin is attached to: the ids given to children are pairwise
    distinct. *)
Theorem buildCache_child_ids_unique d els st k e p :
  buildCache d els = Ok st ->
  find_gravity d !! k = Some (e, p) ->
  (exists n, doc st !! e = Some n /\
             matches (doc st) (SelChild (pretty k)) e n = true) /\
  (forall i n, doc st !! i = Some n ->
     matches (doc st) (SelChild (pretty k)) i n = true ->
     i = e \/ i = 0%nat).
Proof.
  intros H Hk.
  pose proof (buildCache_grow _ _ _ H) as Hg.
  pose proof (buildCache_own _ _ _ _ _ _ H Hk) as Hown.
  destruct (find_gravity_lookup _ _ _ _ Hk) as (n0 & Hn0 & _ & Hc0 & _).
  split.
  - destruct (Forall2_lookup_l _ _ _ _ _ Hg Hn0) as (n & Hn & Ht).
    exists n. split; [exact Hn|]. simpl.
    destruct Ht as (_ & Hc & _). rewrite Hc, Hc0. simpl.
    unfold attr_gravity_id in Hown. rewrite Hn in Hown.
    unfold has_id. rewrite Hown. apply String.eqb_refl.
  - intros i n Hi Hm. destruct i as [|i]; [right; reflexivity|]. left.
    simpl in Hm. apply andb_prop in Hm. destruct Hm as [Hc Hid].
    destruct (Forall2_lookup_r _ _ _ _ _ Hg Hi) as (m & Hm & Ht).
    destruct Ht as (_ & Hcm & _). rewrite Hcm in Hc.
    destruct (find_gravity_complete d (S i) m Hm ltac:(lia) Hc) as [j Hj].
    pose proof (buildCache_own _ _ _ _ _ _ H Hj) as Hownj.
    unfold attr_gravity_id in Hownj. rewrite Hi in Hownj.
    unfold has_id in Hid. rewrite Hownj in Hid.
    apply String.eqb_eq in Hid. apply (inj pretty) in Hid. subst j.
    rewrite Hk in Hj. congruence.
Qed.

(** ** Elements that are already there *)

(** X11: when [options.elements] already holds a group (the array of the
    defaults is shared by every instance, and a caller may pass one),
    [buildCache] always completes: the groups already there are kept in
    place, every child reference found is appended to the first of them, and
    the new groups, all for the id 0 and without children, come after
    them. *)
Theorem buildCache_appends_to_first_group d g0 rest :
  exists st n,
    buildCache d (g0 :: rest) = Ok st /\
    parents st = 0%nat /\
    elements st
    = mkGroup (group_parent g0)
        (group_children g0
           ++ (child_ref <$> seq 0 (length (find_gravity d))))
        (group_data_of g0)
      :: rest ++ replicate n group_zero.
Proof.
  unfold buildCache. rewrite find_gravity_init.
  set (st0 := mkCache (alter add_gravity_init 0%nat d) (g0 :: rest) 0).
  destruct (buildCache_loop_total (find_gravity d) 0 st0 eq_refl)
    as [st Hst]; [discriminate|].
  destruct (buildCache_loop_zero _ _ st0 _ eq_refl Hst)
    as (Hp & _ & n & _ & He).
  exists st, n. split; [exact Hst|]. split; [exact Hp|]. exact He.
Qed.

(** ** A second run *)

Lemma alter_fixed {A} (f : A -> A) (l : list A) i x :
  l !! i = Some x -> f x = x -> alter f i l = l.
Proof.
  intros Hi Hf. apply list_eq. intros j. rewrite list_lookup_alter.
  case_decide; [subst j; rewrite Hi; simpl; congruence | reflexivity].
Qed.

Lemma add_gravity_parent_fixed n :
  cls_gravity_parent n = true -> add_gravity_parent n = n.
Proof. destruct n; simpl. intros ->. reflexivity. Qed.

Lemma add_gravity_init_fixed n :
  cls_gravity_init n = true -> add_gravity_init n = n.
Proof. destruct n; simpl. intros ->. reflexivity. Qed.

Lemma set_gravity_id_fixed v n :
  gravity_id n = Some v -> set_gravity_id v n = n.
Proof. destruct n; simpl. intros ->. reflexivity. Qed.

(** After the iteration for one of its children, a parent carries the class
    and an id. *)
Lemma buildCache_each_parent index e p st st' :
  (p < length (doc st))%nat ->
  buildCache_each index e p st = Ok st' ->
  exists m, doc st' !! p = Some m /\
            cls_gravity_parent m = true /\ is_Some (gravity_id m).
Proof.
  intros Hlt. unfold buildCache_each.
  set (d1 := alter add_gravity_parent p (doc st)).
  set (d2 := alter (set_gravity_id (pretty index)) e d1).
  destruct (lookup_lt_is_Some_2 (doc st) p Hlt) as [n Hn].
  assert (H1 : d1 !! p = Some (add_gravity_parent n)).
  { unfold d1. rewrite list_lookup_alter_eq, Hn. reflexivity. }
  assert (H2 : exists m2, d2 !! p = Some m2 /\ cls_gravity_parent m2 = true).
  { unfold d2. rewrite list_lookup_alter. case_decide.
    - subst e. rewrite H1. eexists. split; reflexivity.
    - rewrite H1. eexists. split; reflexivity. }
  destruct H2 as (m2 & Hm2 & Hc2).
  destruct (attr_gravity_id d2 p) as [w|] eqn:Ep; simpl.
  - destruct (elements st !! parents st); [|discriminate].
    intros [= <-]. simpl. exists m2. split; [exact Hm2|]. split; [exact Hc2|].
    unfold attr_gravity_id in Ep. rewrite Hm2 in Ep. rewrite Ep. eauto.
  - match goal with
    | |- context [?l !! ?i] => destruct (l !! i); [|discriminate]
    end.
    intros [= <-]. simpl. rewrite list_lookup_alter_eq, Hm2. simpl.
    eexists. split; [reflexivity|]. split; [exact Hc2 | simpl; eauto].
Qed.

Lemma buildCache_loop_parents_tagged found : forall index st st' e p,
  buildCache_loop index found st = Ok st' ->
  (e, p) ∈ found -> (p < length (doc st))%nat ->
  exists m, doc st' !! p = Some m /\
            cls_gravity_parent m = true /\ is_Some (gravity_id m).
Proof.
  induction found as [|[e0 p0] rest IH]; intros index st st' e p; simpl.
  - intros _ H. inversion H.
  - destruct (buildCache_each index e0 p0 st) as [st1|] eqn:E1;
      [|discriminate].
    intros H Hin Hlt. apply elem_of_cons in Hin.
    pose proof (buildCache_each_grow _ _ _ _ _ E1) as G1.
    destruct Hin as [[= -> ->]|Hin].
    + destruct (buildCache_each_parent _ _ _ _ _ Hlt E1) as (m & Hm & Hc & Hi).
      pose proof (buildCache_loop_grow _ _ _ _ H) as G.
      destruct (Forall2_lookup_l _ _ _ _ _ G Hm) as (m' & Hm' & Ht).
      exists m'. split; [exact Hm'|].
      destruct Ht as (_ & _ & _ & _ & _ & Hcp & _ & Hid). auto.
    + apply (IH _ _ _ e p H Hin).
      rewrite <- (Forall2_length _ _ _ G1). exact Hlt.
Qed.

(** ** The ids and the groups [buildCache] leaves *)

(** C10 (as amended): in [buildCache] the group index [parents] is never
    incremented from 0.  Hence, for every document on which [buildCache],
    started with an empty [options.elements], completes: every group record
    is created for the id 0; every flagged element has its own index as id;
    every parent of a flagged element has the class gravity-parent, and its
    id is 0 when it is not itself flagged and had no id, the id it had when
    it is not itself flagged and had one, and its own index when it is
    itself flagged; no other id is written; every child reference is
    appended to the first group, and every group after the first has an
    empty children list, which a later [calcGravity] leaves empty.
    [buildCache] does not complete only when the parent of the first flagged
    element already carries an id: then [options.elements[0]] does not exist
    and a TypeError is raised. *)
Theorem C10_group_index_stays_zero (d : dom) :
  match buildCache d [] with
  | Ok st =>
      parents st = 0%nat /\
      Forall (fun g => group_parent g = SelParent "0") (elements st) /\
      (forall j e p,
         find_gravity d !! j = Some (e, p) ->
         attr_gravity_id (doc st) e = Some (pretty j)) /\
      (forall e p,
         (e, p) ∈ find_gravity d -> (p < length d)%nat ->
         exists m,
           doc st !! p = Some m /\ cls_gravity_parent m = true /\
           (p ∉ (fst <$> find_gravity d) ->
              match attr_gravity_id d p with
              | None => gravity_id m = Some "0"
              | Some v => gravity_id m = Some v
              end)) /\
      (forall i,
         attr_gravity_id (doc st) i = attr_gravity_id d i \/
         attr_gravity_id (doc st) i = Some "0" \/
         (exists j p, find_gravity d !! j = Some (i, p) /\
                      attr_gravity_id (doc st) i = Some (pretty j))) /\
      (forall o els' d',
         calcGravity o (elements st) (doc st) = (Ok els', d') ->
         Forall (fun g => group_children g = []) (tail els')) /\
      match elements st with
      | [] => find_gravity d = []
      | g0 :: rest =>
          group_children g0
            = child_ref <$> seq 0 (length (find_gravity d)) /\
          Forall (fun g => group_children g = []) rest
      end
  | TypeError =>
      exists e p rest,
        find_gravity d = (e, p) :: rest /\
        (p = e \/ is_Some (attr_gravity_id d p))
  end.
Proof.
  destruct (buildCache d []) as [st|] eqn:Hb.
  - pose proof Hb as E. unfold buildCache in E.
    rewrite find_gravity_init in E.
    set (d0 := alter add_gravity_init 0%nat d) in E.
    set (st0 := mkCache d0 [] 0) in E.
    destruct (buildCache_loop_zero _ _ st0 _ eq_refl E)
      as (Hp & Hl & n & Hne & He).
    simpl in He, Hne. rewrite add_children_zero in He.
    split; [exact Hp|]. split; [|split; [|split; [|split; [|split]]]].
    + rewrite He. destruct n as [|m]; constructor; [reflexivity|].
      apply Forall_replicate. reflexivity.
    + intros j e p Hj. exact (buildCache_own _ _ _ _ _ _ Hb Hj).
    + intros e p Hin Hlt.
      assert (Hlt0 : (p < length (doc st0))%nat).
      { simpl. unfold d0. rewrite length_alter. exact Hlt. }
      destruct (buildCache_loop_parents_tagged _ _ _ _ e p E Hin Hlt0)
        as (m & Hm & Hcp & _).
      exists m. split; [exact Hm|]. split; [exact Hcp|]. intros Hnot.
      assert (Hid : attr_gravity_id (doc st) p = gravity_id m).
      { unfold attr_gravity_id. rewrite Hm. reflexivity. }
      rewrite <- Hid.
      destruct (attr_gravity_id d p) as [v|] eqn:Ev.
      * apply (buildCache_loop_keeps_id _ _ st0 _ p v eq_refl E Hnot).
        simpl. unfold d0. rewrite attr_alter_init. exact Ev.
      * apply (buildCache_loop_parent _ _ st0 _ p eq_refl E Hnot Hlt0).
        right. simpl. unfold d0. rewrite attr_alter_init.
        split; [exact Ev|].
        apply (list_elem_of_fmap_2 snd _ (e, p)), Hin.
    + intros i.
      destruct (buildCache_loop_written _ _ st0 _ i eq_refl E)
        as [H|[H|(j & q & Hj & H)]].
      * left. rewrite H. simpl. unfold d0. apply attr_alter_init.
      * right; left; exact H.
      * right; right. exists j, q. split; [exact Hj|exact H].
    + intros o els' d'. rewrite He. destruct n as [|m].
      * simpl. intros [= <- _]. constructor.
      * intros Hc. eapply calcGravity_tail; [exact Hc|].
        apply Forall_replicate. reflexivity.
    + rewrite He. destruct n as [|m].
      * destruct (find_gravity d) as [|x l]; [reflexivity|].
        exfalso. apply Hne; [discriminate|reflexivity].
      * split; [reflexivity|]. apply Forall_replicate. reflexivity.
  - unfold buildCache in Hb. rewrite find_gravity_init in Hb.
    set (d0 := alter add_gravity_init 0%nat d) in Hb.
    set (st0 := mkCache d0 [] 0) in Hb.
    destruct (find_gravity d) as [|[e p] rest] eqn:Ef; [discriminate|].
    exists e, p, rest. split; [reflexivity|].
    simpl in Hb.
    pose proof (buildCache_each_first 0 e p st0 eq_refl eq_refl) as H1.
    destruct (buildCache_each 0 e p st0) as [st1|].
    + destruct H1 as [Hne1 Hp1].
      destruct (buildCache_loop_total rest 1 st1 Hp1 Hne1) as [st' Hst'].
      congruence.
    + destruct H1 as [H1|H1]; [left; exact H1|].
      right. simpl in H1. unfold d0 in H1. rewrite attr_alter_init in H1.
      exact H1.
Qed.

(** ** A second run, continued *)

Lemma add_children_nil els : add_children [] els = els.
Proof. destruct els as [|[gp gc gd] r]; simpl; [|rewrite app_nil_r]; reflexivity. Qed.

(** On a document that is already tagged, the loop writes nothing new. *)
Lemma buildCache_loop_again found : forall index (d : dom) g0 r,
  (forall j e p, found !! j = Some (e, p) ->
     attr_gravity_id d e = Some (pretty (index + j)%nat) /\
     exists m, d !! p = Some m /\
               cls_gravity_parent m = true /\ is_Some (gravity_id m)) ->
  buildCache_loop index found (mkCache d (g0 :: r) 0)
  = Ok (mkCache d
          (add_children (child_ref <$> seq index (length found)) (g0 :: r))
          0).
Proof.
  induction found as [|[e p] rest IH]; intros index d g0 r Hall.
  - simpl. rewrite app_nil_r. destruct g0; reflexivity.
  - destruct (Hall 0%nat e p eq_refl) as (He & m & Hm & Hc & [w Hw]).
    rewrite Nat.add_0_r in He.
    cbn [buildCache_loop]. unfold buildCache_each. simpl.
    rewrite (alter_fixed _ _ _ _ Hm (add_gravity_parent_fixed _ Hc)).
    unfold attr_gravity_id in He.
    destruct (d !! e) as [ne|] eqn:Ee; [|discriminate].
    rewrite (alter_fixed _ _ _ _ Ee (set_gravity_id_fixed _ _ He)).
    unfold attr_gravity_id. rewrite Hm, Hw. simpl.
    rewrite IH.
    + simpl. rewrite <- app_assoc. reflexivity.
    + intros j e' p' Hj. specialize (Hall (S j) e' p' Hj).
      replace (S index + j)%nat with (index + S j)%nat by lia. exact Hall.
Qed.

(** X12: a second [buildCache] over the document and the elements left by a
    first one (the elements array is shared between instances) changes no
    class and no id and creates no group, but appends every child reference
    once more to the first group. *)
Theorem buildCache_again_duplicates_children d els st :
  buildCache d els = Ok st ->
  (forall e p, (e, p) ∈ find_gravity d -> (p < length d)%nat) ->
  buildCache (doc st) (elements st)
  = Ok (mkCache (doc st)
          (add_children (child_ref <$> seq 0 (length (find_gravity d)))
             (elements st))
          0).
Proof.
  intros H Hrange.
  pose proof (buildCache_grow _ _ _ H) as Hg.
  pose proof (find_gravity_grow _ _ Hg) as Hf.
  assert (Hinit : alter add_gravity_init 0%nat (doc st) = doc st).
  { destruct (doc st !! 0%nat) as [r1|] eqn:Er.
    - apply (alter_fixed _ _ _ _ Er). apply add_gravity_init_fixed.
      revert H Er. unfold buildCache. intros H Er.
      pose proof (buildCache_loop_grow _ _ _ _ H) as G. simpl in G.
      destruct (Forall2_lookup_r _ _ _ _ _ G Er) as (r0 & Hr0 & Ht).
      destruct Ht as (_ & _ & _ & _ & _ & _ & Hi & _). apply Hi.
      rewrite list_lookup_alter_eq in Hr0.
      destruct (d !! 0%nat); [|discriminate]. injection Hr0 as <-.
      reflexivity.
    - destruct (doc st); [reflexivity|discriminate]. }
  unfold buildCache at 1. rewrite Hinit, Hf.
  destruct (find_gravity d) as [|[e1 p1] found'] eqn:Efound.
  - simpl. rewrite add_children_nil. reflexivity.
  - rewrite <- Efound in *.
    assert (Hne : exists g0 r, elements st = g0 :: r).
    { revert H. unfold buildCache. rewrite find_gravity_init. intros H.
      destruct (buildCache_loop_zero _ _
                  (mkCache (alter add_gravity_init 0%nat d) els 0) _
                  eq_refl H) as (_ & _ & n & Hne & He).
      simpl in He, Hne.
      destruct (els ++ replicate n group_zero) as [|g r];
        [exfalso; apply Hne; [rewrite Efound; discriminate|reflexivity]|].
      rewrite He. simpl. eauto. }
    destruct Hne as (g0 & r & He). rewrite He.
    apply buildCache_loop_again. intros j e p Hj. split.
    + apply (buildCache_own _ _ _ _ _ _ H Hj).
    + revert H. unfold buildCache. rewrite find_gravity_init. intros H.
      apply (buildCache_loop_parents_tagged _ _ _ _ e p H).
      * eapply list_elem_of_lookup_2, Hj.
      * simpl. rewrite length_alter. apply (Hrange e p).
        eapply list_elem_of_lookup_2, Hj.
Qed.

(** * Further properties of [init] *)

Lemma first_from_exists d s l : forall i0 j n,
  l !! j = Some n -> matches d s (i0 + j) n = true ->
  is_Some (first_from d s i0 l).
Proof.
  induction l as [|m l IH]; intros i0 j n; simpl; [discriminate|].
  destruct (matches d s i0 m) eqn:Em; [eauto|].
  destruct j as [|j]; simpl.
  - intros [= ->]. rewrite Nat.add_0_r, Em. discriminate.
  - intros Hj Hm. apply (IH (S i0) j n Hj).
    replace (S i0 + j)%nat with (i0 + S j)%nat by lia. exact Hm.
Qed.

Lemma first_match_exists d s i n :
  d !! i = Some n -> matches d s i n = true -> is_Some (first_match s d).
Proof. intros Hi Hm. apply (first_from_exists d s d 0 i n Hi Hm). Qed.

Lemma first_from_sound d s l : forall i0 n,
  first_from d s i0 l = Some n ->
  exists j, l !! j = Some n /\ matches d s (i0 + j) n = true.
Proof.
  induction l as [|m l IH]; intros i0 n; simpl; [discriminate|].
  destruct (matches d s i0 m) eqn:Em.
  - intros [= ->]. exists 0%nat. rewrite Nat.add_0_r. auto.
  - intros H. destruct (IH _ _ H) as (j & Hj & Hm). exists (S j).
    replace (i0 + S j)%nat with (S i0 + j)%nat by lia. auto.
Qed.

Lemma buildCache_fresh_ok d e p rest :
  find_gravity d = (e, p) :: rest ->
  p <> e -> attr_gravity_id d p = None ->
  exists st, buildCache d [] = Ok st.
Proof.
  intros Hf Hne Hnone. unfold buildCache. rewrite find_gravity_init, Hf.
  set (st0 := mkCache (alter add_gravity_init 0%nat d) [] 0). simpl.
  pose proof (buildCache_each_first 0 e p st0 eq_refl eq_refl) as H1.
  destruct (buildCache_each 0 e p st0) as [st1|].
  - destruct H1 as [Hne1 Hp1].
    apply (buildCache_loop_total rest 1 st1 Hp1 Hne1).
  - exfalso. destruct H1 as [H1|[w H1]]; [exact (Hne H1)|].
    simpl in H1. rewrite attr_alter_init in H1. congruence.
Qed.

Lemma buildCache_child_resolves d els st k e p :
  buildCache d els = Ok st ->
  find_gravity d !! k = Some (e, p) ->
  is_Some (first_match (SelChild (pretty k)) (doc st)).
Proof.
  intros H Hk.
  pose proof (buildCache_grow _ _ _ H) as Hg.
  pose proof (buildCache_own _ _ _ _ _ _ H Hk) as Hown.
  destruct (find_gravity_lookup _ _ _ _ Hk) as (n0 & Hn0 & _ & Hc0 & _).
  destruct (Forall2_lookup_l _ _ _ _ _ Hg Hn0) as (n & Hn & Ht).
  apply (first_match_exists _ _ e n Hn). simpl.
  destruct Ht as (_ & Hc & _). rewrite Hc, Hc0. simpl.
  unfold attr_gravity_id in Hown. rewrite Hn in Hown.
  unfold has_id. rewrite Hown. apply String.eqb_refl.
Qed.

Lemma buildCache_root_init d els st r l :
  buildCache d els = Ok st -> d = r :: l -> root_init (doc st) = true.
Proof.
  intros H ->. unfold buildCache in H.
  pose proof (buildCache_loop_grow _ _ _ _ H) as G. simpl in G.
  inversion G as [|? r' ? ? Hr _]; subst. simpl.
  destruct Hr as (_ & _ & _ & _ & _ & _ & Hi & _). apply Hi. reflexivity.
Qed.

(** What [buildCache] leaves in an empty [options.elements]. *)
Lemma buildCache_fresh_elements d st :
  buildCache d [] = Ok st -> find_gravity d <> [] ->
  exists m,
    elements st
    = mkGroup (SelParent "0")
        (child_ref <$> seq 0 (length (find_gravity d))) None
      :: replicate m group_zero.
Proof.
  unfold buildCache. rewrite find_gravity_init. intros H Hne.
  destruct (buildCache_loop_zero _ _
              (mkCache (alter add_gravity_init 0%nat d) [] 0) _ eq_refl H)
    as (_ & _ & n & Hn & He).
  simpl in He, Hn. rewrite add_children_zero in He.
  destruct n as [|m]; [exfalso; apply (Hn Hne); reflexivity|].
  exists m. exact He.
Qed.

(** X13: [init] completes on a document that holds a gravitation node and at
    least one flagged element, when the parent of the first flagged element
    is in the document, is not itself flagged and carries no gravity-id yet.
    The pass then returns one group holding a measured child for every
    flagged element, followed by groups without children. *)
Theorem init_completes o d e p rest :
  find_gravity d = (e, p) :: rest ->
  (p < length d)%nat ->
  attr_gravity_id d p = None ->
  p ∉ (fst <$> find_gravity d) ->
  (exists i n, d !! i = Some n /\ i <> 0%nat /\
               cls_gravitation_node n = true) ->
  exists g tl d',
    init o d = (Ok (g :: tl), d') /\
    Forall2 child_measured
      (child_ref <$> seq 0 (length (find_gravity d))) (group_children g) /\
    Forall (fun g0 => group_children g0 = []) tl.
Proof.
  intros Hf Hlt Hnone Hnot (i & gn & Hi & Hi0 & Hgn).
  assert (Hpe : p <> e).
  { intros ->. apply Hnot. rewrite Hf. left. }
  destruct (buildCache_fresh_ok d e p rest Hf Hpe Hnone) as [st Hst].
  assert (Hfne : find_gravity d <> []) by (rewrite Hf; discriminate).
  destruct (buildCache_fresh_elements d st Hst Hfne) as [m He].
  pose proof (buildCache_grow _ _ _ Hst) as Hg.
  (* the parent selector *)
  assert (Hparent : is_Some (first_match (SelParent "0") (doc st))).
  { revert Hst. unfold buildCache. rewrite find_gravity_init. intros Hst.
    set (st0 := mkCache (alter add_gravity_init 0%nat d) [] 0) in Hst.
    assert (Hin : (e, p) ∈ find_gravity d) by (rewrite Hf; left).
    assert (Hlt0 : (p < length (doc st0))%nat).
    { simpl. rewrite length_alter. exact Hlt. }
    destruct (buildCache_loop_parents_tagged _ _ _ _ e p Hst Hin Hlt0)
      as (pm & Hpm & Hcp & _).
    assert (Hid : attr_gravity_id (doc st) p = Some "0").
    { apply (buildCache_loop_parent _ _ st0 _ p eq_refl Hst Hnot Hlt0).
      right. simpl. rewrite attr_alter_init. split; [exact Hnone|].
      apply (list_elem_of_fmap_2 snd _ (e, p)), Hin. }
    apply (first_match_exists _ _ p pm Hpm). simpl.
    unfold attr_gravity_id in Hid. rewrite Hpm in Hid.
    unfold has_id. rewrite Hcp, Hid. reflexivity. }
  (* the gravitation node *)
  assert (Hgrav : is_Some (first_match SelGravitationNode (doc st))).
  { destruct (Forall2_lookup_l _ _ _ _ _ Hg Hi) as (gn' & Hgn' & Ht).
    apply (first_match_exists _ _ i gn' Hgn'). simpl.
    destruct Ht as (_ & _ & Hc & _). rewrite Hc, Hgn.
    destruct d as [|r l]; [discriminate|].
    rewrite (buildCache_root_init _ _ _ r l Hst eq_refl).
    destruct i; [congruence|reflexivity]. }
  (* the children *)
  assert (Hchildren :
    Forall (fun c => is_Some (first_match (child_id c) (doc st)))
      (child_ref <$> seq 0 (length (find_gravity d)))).
  { apply Forall_fmap, Forall_forall. intros k Hk. simpl.
    apply elem_of_seq in Hk.
    destruct (lookup_lt_is_Some_2 (find_gravity d) k ltac:(lia))
      as [[e' p'] Hk'].
    apply (buildCache_child_resolves _ _ _ _ _ _ Hst Hk'). }
  assert (Hall : Forall (fun g0 => resolved g0 (doc st)) (elements st)).
  { rewrite He. constructor.
    - repeat split; assumption.
    - apply Forall_replicate. repeat split; try assumption. constructor. }
  destruct (calcGravity_all_resolved o _ _ Hall) as (els' & d' & Hc).
  unfold init. rewrite Hst, Hc.
  revert Hc. rewrite He. simpl. unfold bind, ret.
  destruct (calcGroup o _ (doc st)) as [[g'|] d1] eqn:Eg; [|discriminate].
  destruct (calcGravity o _ d1) as [[r|] d2] eqn:Er; [|discriminate].
  intros [= <- <-]. exists g', r, d2. split; [reflexivity|]. split.
  - destruct (calcGroup_measured _ _ _ _ _ Eg) as ((_ & _ & Hm) & _).
    exact Hm.
  - eapply calcGravity_empty_children; [exact Er|].
    apply Forall_replicate. reflexivity.
Qed.

(** X14: on a document without a gravitation node (an empty
    [options.gravitation]) that holds a flagged element, [init] ends with a
    TypeError, and no style has been written: every node has the style it
    had. *)
Theorem init_without_gravitation_node o d :
  find_gravity d <> [] ->
  (forall i n, d !! i = Some n -> i <> 0%nat ->
               cls_gravitation_node n = false) ->
  fst (init o d) = TypeError /\
  Forall2 (fun n n' => css n' = css n) d (snd (init o d)).
Proof.
  intros Hne Hno. unfold init.
  destruct (buildCache d []) as [st|] eqn:Hst.
  - pose proof (buildCache_grow _ _ _ Hst) as Hg.
    destruct (buildCache_fresh_elements d st Hst Hne) as [m He].
    assert (Hnone : first_match SelGravitationNode (doc st) = None).
    { destruct (first_match SelGravitationNode (doc st)) as [n|] eqn:E;
        [|reflexivity].
      destruct (first_from_sound _ _ _ _ _ E) as (j & Hj & Hm).
      simpl in Hm. destruct (Forall2_lookup_r _ _ _ _ _ Hg Hj)
        as (n0 & Hn0 & Ht).
      destruct Ht as (_ & _ & Hc & _). rewrite Hc in Hm.
      destruct j as [|j]; [rewrite andb_false_r in Hm; discriminate|].
      rewrite (Hno (S j) n0 Hn0) in Hm by lia. discriminate. }
    rewrite He. simpl. unfold bind.
    rewrite calcGroup_unresolved by (right; left; exact Hnone).
    simpl. split; [reflexivity|].
    eapply Forall2_impl; [exact Hg|]. intros n n' Ht. apply Ht.
  - simpl. split; [reflexivity|].
    apply Forall_Forall2_diag, Forall_forall. reflexivity.
Qed.

(** * Instances of the further properties *)

Lemma calcGravity_keeps_records_witness :
  exists els' d',
    calcGravity defaults [group_of "0" "0"; group_of "2" "2"] doc_three
      = (Ok els', d') /\
    Forall2 group_measured [group_of "0" "0"; group_of "2" "2"] els'.
Proof.
  eexists _, _. split; [vm_compute; reflexivity|].
  eapply (calcGravity_keeps_records defaults
            [group_of "0" "0"; group_of "2" "2"] doc_three).
  vm_compute; reflexivity.
Defined.

Lemma calcGroup_content_box_witness :
  exists g' d',
    calcGroup defaults (group_of "0" "0") doc_three = (Ok g', d') /\
    exists gd, group_data_of g' = Some gd /\
      gWidth gd == sum_extents child_extent_h (group_children g') /\
      gHeight gd == sum_extents child_extent_v (group_children g') /\
      g_center_top gd = g_offset_top gd + gHeight gd / 2 /\
      g_center_left gd = g_offset_left gd + gWidth gd / 2 /\
      (group_children (group_of "0" "0") = [] ->
       gWidth gd == 0 /\ gHeight gd == 0).
Proof.
  eexists _, _. split; [vm_compute; reflexivity|].
  eapply (calcGroup_content_box defaults (group_of "0" "0") doc_three).
  vm_compute; reflexivity.
Defined.

Lemma calcGravity_keeps_selectors_witness :
  exists els1 d1,
    calcGravity defaults [group_of "0" "0"; group_of "2" "2"] doc_three
      = (Ok els1, d1) /\
    Forall2 same_marks doc_three d1 /\
    (forall s i n n',
       doc_three !! i = Some n -> d1 !! i = Some n' ->
       matches d1 s i n' = matches doc_three s i n) /\
    (forall els' o',
       Ok els1 = Ok els' ->
       exists els'' d'', calcGravity o' els' d1 = (Ok els'', d'')).
Proof.
  eexists _, _. split; [vm_compute; reflexivity|].
  apply (calcGravity_keeps_selectors defaults
           [group_of "0" "0"; group_of "2" "2"] doc_three).
  vm_compute; reflexivity.
Defined.

Lemma apply_child_writes_force_margins_witness :
  child_data_of sample_child = Some sample_child_data /\
  exists d',
    apply_child defaults sample_group_data sample_child doc_three
      = (Ok tt, d') /\
    (forall i m, d' !! i = Some m ->
       matches d' (child_id sample_child) i m = true ->
       margin_top (css m) = c_margin_top sample_child_data /\
       margin_right (css m) = c_margin_right sample_child_data /\
       margin_bottom (css m) = c_margin_bottom sample_child_data /\
       margin_left (css m) = c_margin_left sample_child_data) /\
    (forall i m0 m, doc_three !! i = Some m0 -> d' !! i = Some m ->
       padding_top (css m) = padding_top (css m0)).
Proof.
  split; [reflexivity|].
  apply (apply_child_writes_force_margins defaults sample_group_data
           sample_child sample_child_data doc_three).
  reflexivity.
Defined.

Lemma calcGravity_alignment_after_witness :
  exists r d',
    calcGravity defaults [group_of "0" "0"; group_of "2" "2"] doc_three
      = (r, d') /\
    (forall i n n', doc_three !! i = Some n -> d' !! i = Some n' ->
       text_align (css n') = text_align (css n) \/
       text_align (css n') = "left" \/
       text_align (css n') = "center" \/
       text_align (css n') = "right") /\
    (forall els', r = Ok els' ->
       forall g c n, g ∈ els' -> c ∈ group_children g ->
         first_match (child_id c) d' = Some n ->
         text_align (css n) <> "start").
Proof.
  eexists _, _. split; [vm_compute; reflexivity|].
  apply (calcGravity_alignment_after defaults
           [group_of "0" "0"; group_of "2" "2"] doc_three).
  vm_compute; reflexivity.
Defined.

Lemma measure_child_whole_pixel_margins_witness :
  exists cd n,
    measure_child defaults (mkChild (SelChild "0") None) doc_three
      = (Ok cd, doc_three) /\
    first_match (SelChild "0") doc_three = Some n /\
    ~ density defaults == 0 /\
    margin_top (css n) == inject_Z 20 /\
    Forall (fun '(m, computed) =>
              forall z, m == inject_Z z -> (Z.abs z < 1000000)%Z ->
                        computed == m / density defaults * c_force cd)
      [ (margin_top (css n), c_margin_top cd);
        (margin_right (css n), c_margin_right cd);
        (margin_bottom (css n), c_margin_bottom cd);
        (margin_left (css n), c_margin_left cd) ].
Proof.
  eexists _, _. split; [vm_compute; reflexivity|]. split; [reflexivity|].
  split; [vm_compute; congruence|]. split; [reflexivity|].
  eapply (measure_child_whole_pixel_margins defaults
            (mkChild (SelChild "0") None) doc_three);
    [vm_compute; reflexivity | reflexivity | vm_compute; congruence].
Defined.

Lemma measure_child_margin_bounds_witness :
  exists cd n,
    measure_child defaults (mkChild (SelChild "0") None) doc_fraction
      = (Ok cd, doc_fraction) /\
    first_match (SelChild "0") doc_fraction = Some n /\
    0 <= k defaults /\ 0 < density defaults /\
    0 <= outer_height (geometry n) /\
    0 <= margin_top (css n) /\ plain_px (margin_top (css n)) /\
    Forall (fun '(m, computed) =>
              0 <= m -> plain_px m ->
              0 <= computed /\
              computed <= m / density defaults * c_force cd /\
              m / density defaults * c_force cd
                - c_force cd / density defaults <= computed)
      [ (margin_top (css n), c_margin_top cd);
        (margin_right (css n), c_margin_right cd);
        (margin_bottom (css n), c_margin_bottom cd);
        (margin_left (css n), c_margin_left cd) ].
Proof.
  eexists _, _. split; [vm_compute; reflexivity|]. split; [reflexivity|].
  split; [vm_compute; congruence|]. split; [vm_compute; congruence|].
  split; [vm_compute; congruence|]. split; [vm_compute; congruence|].
  split.
  { exists 125%Z, 1%nat. split; [lia|]. split; [reflexivity|].
    vm_compute; reflexivity. }
  eapply (measure_child_margin_bounds defaults
            (mkChild (SelChild "0") None) doc_fraction);
    [vm_compute; reflexivity | reflexivity | vm_compute; congruence ..].
Defined.

(** X9, instance: the two groups [buildCache] leaves for
    [doc_two_parents]; the first holds all three children, the last none,
    and both containers end with the padding of the last, 150px. *)
Lemma calcGravity_last_padding_wins_witness :
  exists st g0 els' d' n1 n3,
    buildCache doc_two_parents [] = Ok st /\
    elements st = [g0] ++ [group_zero] /\
    calcGravity defaults ([g0] ++ [group_zero]) (doc st) = (Ok els', d') /\
    d' !! 1%nat = Some n1 /\ d' !! 3%nat = Some n3 /\
    padding_top (css n1) == 150 /\ padding_top (css n3) == 150 /\
    exists pre' g' gd,
      els' = pre' ++ [g'] /\
      group_data_of g' = Some gd /\
      (forall i n, d' !! i = Some n ->
         matches d' (group_parent group_zero) i n = true ->
         exists n1, snd (calcGravity defaults [g0] (doc st)) !! i = Some n1 /\
           (0 <= g_padding_top gd ->
              padding_top (css n) = g_padding_top gd) /\
           (g_padding_top gd < 0 ->
              padding_top (css n) = padding_top (css n1))) /\
      (group_children group_zero = [] ->
       gHeight gd = 0 /\
       g_padding_top gd
       = calc_padding_top 0 (aHeight gd)
           (gravity_top gd - (g_offset_top gd + 0 / 2)) (g_offset_top gd)).
Proof.
  eexists _, _, _, _, _, _. split; [vm_compute; reflexivity|].
  split; [reflexivity|]. split; [vm_compute; reflexivity|].
  split; [reflexivity|]. split; [reflexivity|].
  split; [vm_compute; reflexivity|]. split; [vm_compute; reflexivity|].
  eapply (calcGravity_last_padding_wins defaults).
  vm_compute; reflexivity.
Defined.

Lemma buildCache_child_ids_unique_witness :
  exists st,
    buildCache doc_two_parents [] = Ok st /\
    find_gravity doc_two_parents !! 1%nat = Some (4%nat, 3%nat) /\
    (exists n, doc st !! 4%nat = Some n /\
               matches (doc st) (SelChild (pretty 1%nat)) 4 n = true) /\
    (forall i n, doc st !! i = Some n ->
       matches (doc st) (SelChild (pretty 1%nat)) i n = true ->
       i = 4%nat \/ i = 0%nat).
Proof.
  eexists. split; [vm_compute; reflexivity|]. split; [reflexivity|].
  apply (buildCache_child_ids_unique doc_two_parents [] _ 1 4 3).
  - vm_compute; reflexivity.
  - reflexivity.
Defined.

Lemma buildCache_again_duplicates_children_witness :
  exists st,
    buildCache doc_two_parents [] = Ok st /\
    buildCache (doc st) (elements st)
    = Ok (mkCache (doc st)
            (add_children
               (child_ref <$> seq 0 (length (find_gravity doc_two_parents)))
               (elements st))
            0).
Proof.
  eexists. split; [vm_compute; reflexivity|].
  apply (buildCache_again_duplicates_children doc_two_parents []).
  - vm_compute; reflexivity.
  - intros e p Hin. change (find_gravity doc_two_parents)
      with [(2, 1); (4, 3); (5, 3)]%nat in Hin.
    repeat (apply elem_of_cons in Hin; destruct Hin as [[= -> ->]|Hin];
            [simpl; lia|]).
    inversion Hin.
Defined.

Lemma init_completes_witness :
  exists g tl d',
    init defaults doc_overflow = (Ok (g :: tl), d') /\
    Forall2 child_measured
      (child_ref <$> seq 0 (length (find_gravity doc_overflow)))
      (group_children g) /\
    Forall (fun g0 => group_children g0 = []) tl.
Proof.
  apply (init_completes defaults doc_overflow 2 1 []).
  - reflexivity.
  - simpl; lia.
  - reflexivity.
  - change (fst <$> find_gravity doc_overflow) with [2%nat].
    intros Hin. apply elem_of_cons in Hin. destruct Hin as [Hin|Hin];
      [discriminate|inversion Hin].
  - exists 3%nat. eexists. split; [reflexivity|]. split; [lia|reflexivity].
Defined.

Lemma init_without_gravitation_node_witness :
  fst (init defaults doc_no_attractor) = TypeError /\
  Forall2 (fun n n' => css n' = css n) doc_no_attractor
    (snd (init defaults doc_no_attractor)).
Proof.
  apply (init_without_gravitation_node defaults doc_no_attractor).
  - discriminate.
  - intros i n Hi _.
    destruct i as [|[|[|i]]]; simpl in Hi;
      try (injection Hi as <-; reflexivity); discriminate.
Defined.

(** * Passes and runs that follow one another *)

Lemma measure_children_by_ids o cs1 : forall cs2 gw gh d,
  child_id <$> cs1 = child_id <$> cs2 ->
  measure_children o cs1 gw gh d = measure_children o cs2 gw gh d.
Proof.
  induction cs1 as [|c1 cs1 IH]; intros [|c2 cs2] gw gh d; simpl;
    try discriminate; [reflexivity|].
  intros [= Hc Hr]. unfold measure_child, first_node, bind. rewrite Hc.
  destruct (first_match (child_id c2) d) as [n|]; simpl; [|reflexivity].
  rewrite (IH cs2 _ _ d Hr). reflexivity.
Qed.

Lemma calcGroup_by_ids o g1 g2 d :
  same_selectors g1 g2 -> calcGroup o g1 d = calcGroup o g2 d.
Proof.
  intros [Hp Hc]. unfold calcGroup, measure_group, first_node, bind.
  rewrite Hp.
  destruct (first_match (group_parent g2) d) as [pn|]; [|reflexivity].
  destruct (first_match SelGravitationNode d) as [gn|]; [|reflexivity].
  rewrite (measure_children_by_ids o _ _ 0 0 d Hc). reflexivity.
Qed.

(** X15: a pass uses nothing of the data an earlier pass has stored on the
    group and child records: two lists of groups with the same selectors
    give the same result and the same document. *)
Theorem calcGravity_discards_prior_data o els1 els2 d :
  Forall2 same_selectors els1 els2 ->
  calcGravity o els1 d = calcGravity o els2 d.
Proof.
  intros H. revert d. induction H as [|g1 g2 l1 l2 Hg _ IH]; intros d; simpl.
  - reflexivity.
  - unfold bind. rewrite (calcGroup_by_ids o g1 g2 d Hg).
    destruct (calcGroup o g2 d) as [[g'|] d1]; [|reflexivity].
    rewrite IH. reflexivity.
Qed.

Lemma calcGravity_discards_prior_data_witness :
  Forall2 same_selectors elements_three_measured elements_three /\
  calcGravity defaults elements_three_measured doc_three
  = calcGravity defaults elements_three doc_three.
Proof.
  assert (H : Forall2 same_selectors elements_three_measured elements_three).
  { repeat constructor. }
  split; [exact H|].
  apply (calcGravity_discards_prior_data defaults elements_three_measured
           elements_three doc_three H).
Defined.

Lemma is_Some_attr_alter f i (d : dom) j :
  (forall n, is_Some (gravity_id n) -> is_Some (gravity_id (f n))) ->
  is_Some (attr_gravity_id d j) -> is_Some (attr_gravity_id (alter f i d) j).
Proof.
  intros Hf. unfold attr_gravity_id. rewrite list_lookup_alter.
  case_decide; [subst j|auto].
  destruct (d !! i) as [n|]; simpl; [apply Hf | auto].
Qed.

(** X16: a new [buildCache] over a document that an earlier one has tagged,
    started with an empty [options.elements] (an instance created with its
    own [elements: []]), ends with a TypeError at the first flagged element:
    its parent already carries a gravity-id, so no group is created and
    [options.elements[0]] does not exist. *)
Theorem buildCache_tagged_document_fails d els st e p rest :
  buildCache d els = Ok st ->
  find_gravity d = (e, p) :: rest ->
  (p < length d)%nat ->
  buildCache (doc st) [] = TypeError.
Proof.
  intros H Hf Hlt.
  pose proof (buildCache_grow _ _ _ H) as Hg.
  assert (Htag : is_Some (attr_gravity_id (doc st) p)).
  { revert H. unfold buildCache. rewrite find_gravity_init. intros H.
    destruct (buildCache_loop_parents_tagged _ _ _ _ e p H) as (m & Hm & _ & Hi).
    - rewrite Hf. left.
    - simpl. rewrite length_alter. exact Hlt.
    - unfold attr_gravity_id. rewrite Hm. exact Hi. }
  unfold buildCache. rewrite find_gravity_init, (find_gravity_grow _ _ Hg), Hf.
  simpl. unfold buildCache_each. simpl.
  match goal with
  | |- context [attr_gravity_id ?d2 p] =>
      assert (H2 : is_Some (attr_gravity_id d2 p))
  end.
  { repeat apply is_Some_attr_alter; try exact Htag;
      intros n Hn; simpl; eauto. }
  destruct H2 as [w ->]. reflexivity.
Qed.

Lemma buildCache_tagged_document_fails_witness :
  exists st,
    buildCache doc_overflow [] = Ok st /\
    find_gravity doc_overflow = [(2%nat, 1%nat)] /\
    (1 < length doc_overflow)%nat /\
    buildCache (doc st) [] = TypeError.
Proof.
  eexists. split; [vm_compute; reflexivity|]. split; [reflexivity|].
  split; [simpl; lia|].
  apply (buildCache_tagged_document_fails doc_overflow [] _ 2 1 []).
  - vm_compute; reflexivity.
  - reflexivity.
  - simpl; lia.
Defined.
